(** * HOGBEN notebooks: the magnetism and simulation notebooks

    The two notebooks are orchestration scripts over the [hogben] package,
    numpy and matplotlib.  The embedding below keeps the code of the cells
    as monadic programs; every call that leaves the notebook (the [hogben]
    functions, matplotlib, [print]) is performed through an interface of
    external operations and is recorded, with its arguments and its outcome,
    in a log.  Python floats are IEEE-754 binary64 numbers and are modelled
    by Rocq's primitive floats, so the grids of the notebook can be
    evaluated bit for bit. *)

From Stdlib Require Import PrimFloat SpecFloat FloatOps ZArith.
From Stdlib Require Uint63.
From stdpp Require Import gmap strings list pretty.

Local Open Scope float_scope.
Local Open Scope nat_scope.

(** ** numpy on one-dimensional arrays of floats *)

Module Np.

(** An integer index converted to a float, as [arange] does. *)
Definition of_nat (n : nat) : float :=
  PrimFloat.of_uint63 (Uint63.of_Z (Z.of_nat n)).

(** [numpy.linspace(start, stop, num)] with the default [endpoint=True]:
    [arange(0, num) * step + start] with [step = (stop - start) / (num - 1)],
    the last sample overwritten by [stop]. *)
Definition linspace (start stop : float) (num : nat) : list float :=
  let div := num - 1 in
  let y := map of_nat (seq 0 num) in
  let delta := (stop - start)%float in
  let y :=
    if 0 <? div then
      let step := (delta / of_nat div)%float in
      if (step =? 0)%float
      then map (fun v => (v / of_nat div * delta)%float) y
      else map (fun v => (v * step)%float) y
    else map (fun v => (v * delta)%float) y in
  let y := map (fun v => (v + start)%float) y in
  if 1 <? num then <[num - 1 := stop]> y else y.

(** [numpy.concatenate((a, b))] on one-dimensional arrays. *)
Definition concatenate (a b : list float) : list float := a ++ b.

(** [c * a] for a scalar [c] and an array [a]. *)
Definition scale (c : float) (a : list float) : list float :=
  map (fun v => (c * v)%float) a.

(** A two-dimensional array: its number of columns and its rows. *)
Record ndarray := NdArray { ncols : nat; rows : list (list float) }.

(** [a[:, j]]: numpy refuses a column index outside the second axis. *)
Definition column (j : nat) (a : ndarray) : option (list float) :=
  if j <? ncols a then Some (map (fun r => nth j r 0%float) (rows a))
  else None.

(** [g[0, 0]] on a matrix given by its rows. *)
Definition item00 (g : list (list float)) : option float :=
  match g with
  | (v :: _) :: _ => Some v
  | _ => None
  end.

End Np.

(** ** Python builtins used by the cells *)

(** [enumerate(xs)] *)
Definition enumerate {A} (xs : list A) : list (nat * A) :=
  zip (seq 0 (length xs)) xs.

(** [range(n)] *)
Definition range (n : nat) : list nat := seq 0 n.

(** ['>>> {0}/{1}'.format(a, b)] on two integers. *)
Definition progress_line (a b : nat) : string :=
  (">>> " +:+ pretty a +:+ "/" +:+ pretty b)%string.

(** [sum(xs)]: left to right, starting from the integer [0]. *)
Definition py_sum (xs : list float) : float :=
  fold_left PrimFloat.add xs 0%float.

(** ** Exceptions and results *)

Inductive exn := PyExn (name : string) (msg : string).

Inductive result (A : Type) :=
| Ok (a : A)
| Raise (e : exn).
Arguments Ok {A} a.
Arguments Raise {A} e.

Definition IndexError : exn := PyExn "IndexError" "index out of bounds".

(** ** The global grids of the magnetism notebook *)

(** [(angle, points, time)] tuples. *)
Definition plan := list (float * Z * float).

(** [angle_times] of the Fisher-information cell; its integer times 20, 40
    and 80 are written as the floats they are equal to. *)
Definition angle_times_fisher : plan :=
  [(0.5, 100%Z, 20); (1.0, 100%Z, 40); (2.0, 100%Z, 80)]%float.

Definition yig_thick_range : list float := Np.linspace 400 900 60.

Definition pt_thick_range : list float :=
  Np.concatenate (Np.linspace 21.5 30 25) (Np.linspace 30 100 25).

Definition times : list float := Np.linspace 40 4000 100.

Definition angle_splits : plan :=
  [(0.5, 100%Z, 1 / 7); (1.0, 100%Z, 2 / 7); (2.0, 100%Z, 4 / 7)]%float.

(** The moment given to the Pt layer, [0.01638], is the binary64 value
    nearest to that decimal. *)
Definition pt_moment : float := Eval cbv in (0x1.0c5eb313be22ep-6)%float.

(** [bkg=5e-7] *)
Definition bkg_magnetic : float := Eval cbv in (0x1.0c6f7a0b5ed8dp-21)%float.

(** ** The sample of the simulation notebook, as each library is given it *)

(** What either library is told about a layer. *)
Record layer := Layer {
  layer_name : string;
  layer_sld : float;
  layer_thick : float;
  layer_rough : float
}.

(** [2.047], as the nearest binary64 value. *)
Definition substrate_sld : float := Eval cbv in (0x1.0604189374bc7p+1)%float.

Module Refnx.

(** [SLD(value, name=...)], and the slab [SLD(...)(thick=..., rough=...)];
    a bare [SLD] stacked with [|] becomes a slab of thickness 0 and
    roughness 0. *)
Definition SLD (value : float) (name : string) : layer := Layer name value 0 0.

Definition slab (material : layer) (thick rough : float) : layer :=
  Layer (layer_name material) (layer_sld material) thick rough.

Definition air := SLD 0 "Air".
Definition layer1 := slab (SLD 4 "Layer 1") 100 2.
Definition layer2 := slab (SLD 8 "Layer 2") 150 2.
Definition substrate := slab (SLD substrate_sld "Substrate") 0 2.

(** [air | layer1 | layer2 | substrate] *)
Definition sample_1 : list layer := [air; layer1; layer2; substrate].

End Refnx.

Module Refl1d.

(** [SLD(rho=..., name=...)], and the slab
    [SLD(...)(thickness=..., interface=...)]; a bare material stacked with
    [|] becomes a slab of thickness 0 and interface 0. *)
Definition SLD (rho : float) (name : string) : layer := Layer name rho 0 0.

Definition slab (material : layer) (thickness interface : float) : layer :=
  Layer (layer_name material) (layer_sld material) thickness interface.

Definition air := SLD 0 "Air".
Definition layer1 := slab (SLD 4 "Layer 1") 100 2.
Definition layer2 := slab (SLD 8 "Layer 2") 150 2.
Definition substrate := slab (SLD substrate_sld "Substrate") 0 2.

(** [substrate | layer2 | layer1 | air] *)
Definition sample_2 : list layer := [substrate; layer2; layer1; air].

End Refl1d.

(** The exact value of a positive finite float, times [2^60]; [None] for
    the other floats and for those finer than [2^-60]. *)
Definition scaled_60 (f : float) : option Z :=
  match Prim2SF f with
  | S754_finite false m e =>
      if (-60 <=? e)%Z then Some (Z.pos m * 2 ^ (e + 60))%Z else None
  | _ => None
  end.

(** ** The world of the notebook *)

Section Notebook.

(** [Obj]: references to objects owned by the external libraries (samples,
    structures, models, figures, axes).  [Lib]: whatever else those
    libraries keep (random generator, figure registry). *)
Context {Obj Lib : Type}.

(** Parameter objects and two-dimensional arrays are mutable and shared:
    they live in a store, by address. *)
Abbreviation loc := nat.

Record World := MkWorld {
  params : gmap loc float;
  arrays : gmap loc Np.ndarray;
  lib : Lib
}.

(** Methods called on a matplotlib axes object, with their keyword
    arguments as the cells give them. *)
Inductive pyval := VInt (z : Z) | VFloat (f : float) | VStr (s : string).

Definition kwargs := list (string * pyval).

Inductive axes_call :=
| Aplot (x y : list float) (kw : kwargs)
| Aerrorbar (x y yerr : list float) (kw : kwargs)
| Aset_xlabel (s : string) (kw : kwargs)
| Aset_ylabel (s : string) (kw : kwargs)
| Aset_yscale (s : string)
| Aset_xlim (lo hi : float)
| Alegend.

(** The operations the notebooks do not define themselves.  Each may
    change the world and may raise. *)
Class Extern := {
  (** [SampleYIG()] *)
  ext_SampleYIG : World -> result Obj * World;
  (** the parameter object [sample.pt_mag] *)
  pt_mag : Obj -> loc;
  (** [sample.using_conditions(pt_thick=...)] *)
  ext_using_conditions : Obj -> float -> World -> result Obj * World;
  (** [simulate_magnetic(structure, angle_times, scale=, bkg=, dq=, pp=, pm=, mp=, mm=)] *)
  ext_simulate_magnetic :
    Obj -> plan -> float -> float -> float -> bool -> bool -> bool -> bool ->
    World -> result (Obj * Obj) * World;
  (** [_logl(models)] *)
  ext_logl : Obj -> World -> result float * World;
  (** [sample.underlayer_info(angle_times, yig_thick, pt_thick)] *)
  ext_underlayer_info :
    Obj -> plan -> float -> float -> World -> result (list (list float)) * World;
  (** [reflectivity(q, model)] *)
  ext_reflectivity : list float -> Obj -> World -> result (list float) * World;
  (** [np.median] of a list of floats: a value, computed without effect *)
  np_median : list float -> float;
  (** [plt.figure(figsize=...)] *)
  ext_figure : float * float -> World -> result Obj * World;
  (** [fig.add_subplot(code)] *)
  ext_add_subplot : Obj -> Z -> World -> result Obj * World;
  (** [ax.method(...)] *)
  ext_axes : Obj -> axes_call -> World -> result unit * World;
  (** [plt.show()] *)
  ext_show : World -> result unit * World
}.

Context {E : Extern}.

(** *** The log *)

Inductive call :=
| Cprint (s : string)
| Cset_value (p : loc) (v : float)
| CSampleYIG
| Cusing_conditions (sample : Obj) (pt_thick : float)
| Csimulate_magnetic (structure : Obj) (angle_times : plan)
    (scale bkg dq : float) (pp pm mp mm : bool)
| Clogl (models : Obj)
| Cunderlayer_info (sample : Obj) (angle_times : plan) (yig_thick pt_thick : float)
| Creflectivity (q : list float) (model : Obj)
| Cfigure (figsize : float * float)
| Cadd_subplot (fig : Obj) (code : Z)
| Caxes (ax : Obj) (c : axes_call)
| Cshow.

Inductive retval :=
| Rnone
| Robj (o : Obj)
| Rpair (a b : Obj)
| Rfloat (f : float)
| Rarray (a : list float)
| Rmatrix (g : list (list float)).

Record event := Event { ev_call : call; ev_out : result retval }.

(** The exception an event ended with, if any. *)
Definition raised (ev : event) : option exn :=
  match ev_out ev with
  | Raise e => Some e
  | Ok _ => None
  end.

(** *** The monad: world passing, exceptions, and the log *)

Record out (A : Type) := Out {
  res : result A;
  final : World;
  log : list event
}.
Arguments Out {A} res final log.
Arguments res {A} o.
Arguments final {A} o.
Arguments log {A} o.

Definition M (A : Type) : Type := World -> out A.

Definition ret {A} (a : A) : M A := fun w => Out (Ok a) w [].

Definition raise {A} (e : exn) : M A := fun w => Out (Raise e) w [].

Definition bind {A B} (m : M A) (k : A -> M B) : M B := fun w =>
  let o := m w in
  match res o with
  | Ok a => let o' := k a (final o) in
            Out (res o') (final o') (log o ++ log o')
  | Raise e => Out (Raise e) (final o) (log o)
  end.

Notation "'let*' p := m 'in' k" := (bind m (fun p => k))
  (at level 10, p pattern, m at level 100, k at level 200, only parsing).
Notation "'do' m 'then' k" := (bind m (fun _ => k))
  (at level 10, m at level 100, k at level 200, only parsing).

(** An external call: run it on the world, record call and outcome. *)
Definition external {A} (c : call) (inj : A -> retval)
    (f : World -> result A * World) : M A := fun w =>
  let '(r, w') := f w in
  Out r w' [Event c (match r with Ok a => Ok (inj a) | Raise e => Raise e end)].

(** [for x in xs: body], the local variables the body updates threaded
    through as [s]. *)
Fixpoint for_ {A S} (xs : list A) (body : A -> S -> M S) (s : S) : M S :=
  match xs with
  | [] => ret s
  | x :: xs' => let* s' := body x s in for_ xs' body s'
  end.

Definition when (b : bool) (m : M unit) : M unit :=
  if b then m else ret tt.

Definition of_option {A} (e : exn) (o : option A) : M A :=
  match o with
  | Some a => ret a
  | None => raise e
  end.

(** *** The external calls as the cells write them *)

Definition print (s : string) : M unit :=
  external (Cprint s) (fun _ => Rnone) (fun w => (Ok tt, w)).

(** The world after [p.value = v] on a parameter object. *)
Definition assigned (p : loc) (v : float) (w : World) : World :=
  MkWorld (<[p := v]> (params w)) (arrays w) (lib w).

(** [p.value = v] *)
Definition set_value (p : loc) (v : float) : M unit :=
  external (Cset_value p v) (fun _ => Rnone) (fun w => (Ok tt, assigned p v w)).

Definition SampleYIG : M Obj :=
  external CSampleYIG Robj ext_SampleYIG.

Definition using_conditions (sample : Obj) (pt_thick : float) : M Obj :=
  external (Cusing_conditions sample pt_thick) Robj
    (ext_using_conditions sample pt_thick).

Definition simulate_magnetic (structure : Obj) (angle_times : plan)
    (scale bkg dq : float) (pp pm mp mm : bool) : M (Obj * Obj) :=
  external (Csimulate_magnetic structure angle_times scale bkg dq pp pm mp mm)
    (fun md => Rpair md.1 md.2)
    (ext_simulate_magnetic structure angle_times scale bkg dq pp pm mp mm).

Definition _logl (models : Obj) : M float :=
  external (Clogl models) Rfloat (ext_logl models).

Definition underlayer_info (sample : Obj) (angle_times : plan)
    (yig_thick pt_thick : float) : M (list (list float)) :=
  external (Cunderlayer_info sample angle_times yig_thick pt_thick) Rmatrix
    (ext_underlayer_info sample angle_times yig_thick pt_thick).

Definition reflectivity (q : list float) (model : Obj) : M (list float) :=
  external (Creflectivity q model) Rarray (ext_reflectivity q model).

Definition plt_figure (figsize : float * float) : M Obj :=
  external (Cfigure figsize) Robj (ext_figure figsize).

Definition add_subplot (fig : Obj) (code : Z) : M Obj :=
  external (Cadd_subplot fig code) Robj (ext_add_subplot fig code).

Definition axes (ax : Obj) (c : axes_call) : M unit :=
  external (Caxes ax c) (fun _ => Rnone) (ext_axes ax c).

Definition plt_show : M unit :=
  external Cshow (fun _ => Rnone) ext_show.

(** *** The magnetism notebook *)

(** The Fisher-information cell: the sweep over the two thickness grids.
    [sample] is the global sample of the preceding cell; the three lists
    are the locals [x], [y] and [infos]. *)
Definition fisher_sweep (sample : Obj)
  : M (list float * list float * list float) :=
  let n := length pt_thick_range * length yig_thick_range in
  for_ (enumerate yig_thick_range) (fun '(i, yig_thick) acc =>
    do when (i mod 5 =? 0)
         (print (progress_line (i * length pt_thick_range) n)) then
    for_ pt_thick_range (fun pt_thick '(x, y, infos) =>
      let* g := underlayer_info sample angle_times_fisher yig_thick pt_thick in
      let* g00 := of_option IndexError (Np.item00 g) in
      let infos := infos ++ [g00] in
      let x := x ++ [yig_thick] in
      let y := y ++ [pt_thick] in
      ret (x, y, infos)) acc)
    ([], [], []).

(** The list comprehension building [angle_times] from [angle_splits]. *)
Definition split_times (total_time : float) : plan :=
  map (fun '(angle, points, split) => (angle, points, (split * total_time)%float))
    angle_splits.

(** One pass of the inner loop of [calc_log_ratios]: [temp] is the local
    list the pass appends to. *)
Definition simulate_ratio (pt_thick total_time : float) (temp : list float)
  : M (list float) :=
  let angle_times := split_times total_time in
  let* sample := SampleYIG in
  do set_value (pt_mag sample) pt_moment then
  let* structure := using_conditions sample pt_thick in
  let* (models, datasets) :=
    simulate_magnetic structure angle_times 1 bkg_magnetic 2
      true false false true in
  let* logl_1 := _logl models in
  do set_value (pt_mag sample) 0 then
  let* logl_2 := _logl models in
  let ratio := (logl_1 - logl_2)%float in
  ret (temp ++ [ratio]).

Definition calc_log_ratios (pt_thick : float) : M (list float) :=
  let* ratios :=
    for_ (enumerate times) (fun '(i, total_time) ratios =>
      do when (i mod 20 =? 0) (print (progress_line i (length times))) then
      let* temp :=
        for_ (range 20) (fun _ temp => simulate_ratio pt_thick total_time temp) [] in
      ret (ratios ++ [np_median temp]))
      [] in
  ret ratios.

Definition bold11 : kwargs := [("fontsize", VInt 11); ("weight", VStr "bold")].

Definition label (s : string) : kwargs := [("label", VStr s)].

(** The rest of the cell: the figure of counting time against log ratio. *)
Definition log_ratio_figure : M Obj :=
  let* fig := plt_figure (6, 7)%float in
  let* ax := add_subplot fig 111 in
  let x26 := Np.scale 1.5 times in
  let* y26 := calc_log_ratios 26 in
  do axes ax (Aplot x26 y26 (label "26Å Pt Thickness")) then
  let x80 := Np.scale 1.5 times in
  let* y80 := calc_log_ratios 80 in
  do axes ax (Aplot x80 y80 (label "80Å Pt Thickness")) then
  do axes ax (Aset_xlabel "Counting Time (min.)" bold11) then
  do axes ax (Aset_ylabel "Log Ratio of Likelihoods" bold11) then
  do axes ax Alegend then
  ret fig.

(** *** The simulation notebook *)

(** [data[:, j]] is a view: it shares the memory of [data].  Taking it
    checks the column index against the shape; its elements are read where
    the view is used. *)
Definition column_view (data : loc) (j : nat) : M (loc * nat) := fun w =>
  match arrays w !! data with
  | Some a => if j <? Np.ncols a then ret (data, j) w else raise IndexError w
  | None => raise IndexError w
  end.

Definition deref (v : loc * nat) : M (list float) := fun w =>
  of_option IndexError (arrays w !! v.1 ≫= Np.column v.2) w.

(** [xlim] upper bound [0.3], as the nearest binary64 value. *)
Definition xlim_hi : float := Eval cbv in (0x1.3333333333333p-2)%float.

Definition plot_reflectivity (model : Obj) (data : loc) : M unit :=
  let* q := column_view data 0 in
  let* r := column_view data 1 in
  let* dr := column_view data 2 in
  let* counts := column_view data 3 in
  let* q_now := deref q in
  let* r_model := reflectivity q_now model in
  let* fig := plt_figure (9, 7)%float in
  let* ax := add_subplot fig 111 in
  let* q_now := deref q in
  do axes ax (Aplot q_now r_model
       [("color", VStr "red"); ("zorder", VInt 20); ("label", VStr "Model")]) then
  let* q_now := deref q in
  let* r_now := deref r in
  let* dr_now := deref dr in
  do axes ax (Aerrorbar q_now r_now dr_now
       [("color", VStr "black"); ("marker", VStr "o"); ("ms", VInt 3);
        ("lw", VInt 0); ("elinewidth", VInt 1); ("capsize", VFloat 1.5);
        ("label", VStr "Simulated")]) then
  do axes ax (Aset_xlabel "$\mathregular{Q\ (Å^{-1})}$" bold11) then
  do axes ax (Aset_ylabel "Reflectivity (arb.)" bold11) then
  do axes ax (Aset_yscale "log") then
  do axes ax (Aset_xlim 0 xlim_hi) then
  do axes ax Alegend then
  plt_show.

(** *** Vocabulary of the statements *)

(** A call that returned normally. *)
Definition returned (c : call) (r : retval) : event := Event c (Ok r).

Definition is_print (ev : event) : bool :=
  match ev_call ev with Cprint _ => true | _ => false end.

Definition is_simulate (ev : event) : bool :=
  match ev_call ev with Csimulate_magnetic _ _ _ _ _ _ _ _ _ => true | _ => false end.

Definition is_plot (ev : event) : bool :=
  match ev_call ev with Caxes _ (Aplot _ _ _) => true | _ => false end.

(** What one pass of the inner loop of [calc_log_ratios] obtained from the
    outside. *)
Record pass := Pass {
  pass_sample : Obj;
  pass_structure : Obj;
  pass_models : Obj;
  pass_datasets : Obj;
  logl_1 : float;
  logl_2 : float
}.

Definition pass_ratio (p : pass) : float := (logl_1 p - logl_2 p)%float.

(** The calls of one pass, in order. *)
Definition pass_log (pt_thick total_time : float) (p : pass) : list event :=
  [ returned CSampleYIG (Robj (pass_sample p));
    returned (Cset_value (pt_mag (pass_sample p)) pt_moment) Rnone;
    returned (Cusing_conditions (pass_sample p) pt_thick) (Robj (pass_structure p));
    returned (Csimulate_magnetic (pass_structure p) (split_times total_time)
                1 bkg_magnetic 2 true false false true)
             (Rpair (pass_models p) (pass_datasets p));
    returned (Clogl (pass_models p)) (Rfloat (logl_1 p));
    returned (Cset_value (pt_mag (pass_sample p)) 0) Rnone;
    returned (Clogl (pass_models p)) (Rfloat (logl_2 p)) ].

(** The progress line of [calc_log_ratios] at time index [i], if any. *)
Definition progress_times (i : nat) : list event :=
  if i mod 20 =? 0
  then [returned (Cprint (progress_line i (length times))) Rnone]
  else [].

(** What the time index [it.1], whose total time is [it.2], adds to the
    log when its passes are [ps]. *)
Definition time_chunk (pt_thick : float) (it : nat * float) (ps : list pass)
  : list event :=
  progress_times it.1 ++ concat (map (pass_log pt_thick it.2) ps).

(** The log of a complete run of [calc_log_ratios]: [pss] gives, per time
    index, the passes made at that index. *)
Definition ratios_log (pt_thick : float) (pss : list (list pass)) : list event :=
  concat (zip_with (time_chunk pt_thick) (enumerate times) pss).

(** The pairs of the two grids, YIG outer and Pt inner. *)
Definition grid_row (yig_thick : float) : list (float * float) :=
  map (pair yig_thick) pt_thick_range.

(** The pairs visited once the YIG values [yigs] are done. *)
Definition pairs_of (yigs : list float) : list (float * float) := yigs ≫= grid_row.

Definition grid_pairs : list (float * float) := pairs_of yig_thick_range.

(** The calls a log consists of, progress lines left out. *)
Definition calls (L : list event) : list event :=
  filter (fun ev => is_print ev = false) L.

Definition info_event (sample : Obj) (yp : float * float) (g : list (list float))
  : event :=
  returned (Cunderlayer_info sample angle_times_fisher yp.1 yp.2) (Rmatrix g).

(** [obs] is an observation of the world that none of the external
    operations of [plot_reflectivity] changes. *)
Definition untouched_by_plotting {X} (obs : World -> X) : Prop :=
  (∀ q model w, obs (ext_reflectivity q model w).2 = obs w) ∧
  (∀ sz w, obs (ext_figure sz w).2 = obs w) ∧
  (∀ fig code w, obs (ext_add_subplot fig code w).2 = obs w) ∧
  (∀ ax c w, obs (ext_axes ax c w).2 = obs w) ∧
  (∀ w, obs (ext_show w).2 = obs w).

(** [_logl] only reads, and what it reads of the parameter store lies in
    [footprint models]. *)
Definition logl_reads (footprint : Obj -> gset loc) : Prop :=
  (∀ models w, (ext_logl models w).2 = w) ∧
  (∀ models w w',
     arrays w = arrays w' -> lib w = lib w' ->
     (∀ p, p ∈ footprint models -> params w !! p = params w' !! p) ->
     (ext_logl models w).1 = (ext_logl models w').1).

(** Every event [m] logs satisfies [P]. *)
Definition logs {A} (P : event -> Prop) (m : M A) : Prop :=
  ∀ w, Forall P (log (m w)).

(** An outcome in which exceptions propagate: no call of the log raised, or
    the last call raised and its exception is the result. *)
Definition propagated {A} (o : out A) : Prop :=
  Forall (fun ev => raised ev = None) (log o) ∨
  ∃ pre ev e, log o = pre ++ [ev] ∧ Forall (fun ev => raised ev = None) pre ∧
              raised ev = Some e ∧ res o = Raise e.

Definition propagates {A} (m : M A) : Prop := ∀ w, propagated (m w).

(** In every world [m] returns, with a value satisfying [P]. *)
Definition returns {A} (P : A -> Prop) (m : M A) : Prop :=
  ∀ w, ∃ a, res (m w) = Ok a ∧ P a.

(** A library none of whose operations ever raises, and whose
    Fisher-information matrices have an entry [0, 0]. *)
Definition cooperative : Prop :=
  (∀ w, ∃ sample, (ext_SampleYIG w).1 = Ok sample) ∧
  (∀ sample pt_thick w, ∃ structure,
     (ext_using_conditions sample pt_thick w).1 = Ok structure) ∧
  (∀ structure angle_times scale bkg dq pp pm mp mm w, ∃ md,
     (ext_simulate_magnetic structure angle_times scale bkg dq pp pm mp mm w).1
       = Ok md) ∧
  (∀ models w, ∃ l, (ext_logl models w).1 = Ok l) ∧
  (∀ sample angle_times yig_thick pt_thick w, ∃ g v,
     (ext_underlayer_info sample angle_times yig_thick pt_thick w).1 = Ok g ∧
     Np.item00 g = Some v) ∧
  (∀ figsize w, ∃ fig, (ext_figure figsize w).1 = Ok fig) ∧
  (∀ fig code w, ∃ ax, (ext_add_subplot fig code w).1 = Ok ax) ∧
  (∀ ax c w, (ext_axes ax c w).1 = Ok tt).

(** [m] leaves the observation [obs] of the world as it was. *)
Definition keeps {X A} (obs : World -> X) (m : M A) : Prop :=
  ∀ w, obs (final (m w)) = obs w.

(** *** Vocabulary of the further statements *)

Definition is_logl (ev : event) : bool :=
  match ev_call ev with Clogl _ => true | _ => false end.

Definition is_SampleYIG (ev : event) : bool :=
  match ev_call ev with CSampleYIG => true | _ => false end.

Definition is_info (ev : event) : bool :=
  match ev_call ev with Cunderlayer_info _ _ _ _ => true | _ => false end.

(** A call to matplotlib. *)
Definition is_drawing (ev : event) : bool :=
  match ev_call ev with
  | Cfigure _ | Cadd_subplot _ _ | Caxes _ _ | Cshow => true
  | _ => false
  end.

(** How many events of [L] pass the test [t]. *)
Definition count (t : event -> bool) (L : list event) : nat :=
  length (filter (fun ev => t ev = true) L).

(** The sample that the latest [SampleYIG()] of a log returned. *)
Definition sample_of (ev : event) : option Obj :=
  match ev_call ev, ev_out ev with
  | CSampleYIG, Ok (Robj sample) => Some sample
  | _, _ => None
  end.

Definition latest_sample (L : list event) : option Obj := last (omap sample_of L).

(** [P h ev] for every event [ev] of [L], where [h] is the log before [L]
    followed by the events of [L] before [ev]. *)
Definition in_history (P : list event -> event -> Prop) (h L : list event) : Prop :=
  ∀ pre ev post, L = pre ++ ev :: post -> P (h ++ pre) ev.

(** What ends the thickness sweep: a call that raised, or a matrix without
    an entry [0, 0]. *)
Definition sweep_failure (ev : event) : option exn :=
  match ev_out ev with
  | Raise e => Some e
  | Ok (Rmatrix g) =>
      match Np.item00 g with
      | Some _ => None
      | None => Some IndexError
      end
  | Ok _ => None
  end.

(** An outcome decided by the failures [fatal] tells apart: the run
    returned and no event of the log failed, or the last event failed and
    its exception is the result. *)
Definition stopped_by (fatal : event -> option exn) {A} (o : out A) : Prop :=
  ((∃ a, res o = Ok a) ∧ Forall (fun ev => fatal ev = None) (log o)) ∨
  ∃ pre ev e, log o = pre ++ [ev] ∧ Forall (fun ev => fatal ev = None) pre ∧
              fatal ev = Some e ∧ res o = Raise e.

(** An assignment writes 0.01638 or 0 to the moment of the sample that the
    latest [SampleYIG()] before it returned. *)
Definition assigns_own_sample (h : list event) (ev : event) : Prop :=
  ∀ p v, ev_call ev = Cset_value p v ->
    (v = pt_moment ∨ v = 0%float) ∧
    ∃ sample, latest_sample h = Some sample ∧ p = pt_mag sample.

(** A progress line of [calc_log_ratios] tells the truth: it reads
    ['>>> i/len(times)'] for an index [i] of [times], and 20 simulations
    have been asked for each of the [i] indices before. *)
Definition times_progress_true (h : list event) (ev : event) : Prop :=
  ∀ line, ev_call ev = Cprint line ->
    ∃ i, i < length times ∧ line = progress_line i (length times) ∧
         count is_simulate h = 20 * i.

(** A progress line of the thickness sweep tells the truth: its numerator
    is the number of Fisher-information calls made so far, a whole number
    of rows, and its denominator the number of pairs of the two grids. *)
Definition sweep_progress_true (h : list event) (ev : event) : Prop :=
  ∀ line, ev_call ev = Cprint line ->
    ∃ i, i < length yig_thick_range ∧
         line = progress_line (count is_info h) (length grid_pairs) ∧
         count is_info h = i * length pt_thick_range.

(** A call the thickness sweep may make on [sample]: a progress line, or
    the Fisher information for the plan of the cell at a pair of the two
    grids. *)
Definition sweep_call (sample : Obj) (ev : event) : Prop :=
  is_print ev = true ∨
  ∃ yig_thick pt_thick,
    yig_thick ∈ yig_thick_range ∧ pt_thick ∈ pt_thick_range ∧
    ev_call ev = Cunderlayer_info sample angle_times_fisher yig_thick pt_thick.

(** Where a matplotlib call of the log-ratio figure stands in the run:
    [h] is the log before it. *)
Definition figure_order (h : list event) (ev : event) : Prop :=
  match ev_call ev with
  | Cfigure _ => h = []
  | Cadd_subplot _ _ => count is_simulate h = 0
  | Caxes _ (Aplot _ _ _) => count is_simulate h = 2000 * S (count is_plot h)
  | Caxes _ _ => count is_simulate h = 4000 ∧ count is_plot h = 2
  | Cshow => False
  | _ => True
  end.

(** If [ev] is a call of [simulate_magnetic], its plan is the one built
    from [total_time]. *)
Definition plan_of_time (total_time : float) (ev : event) : Prop :=
  ∀ structure angle_times scale bkg dq pp pm mp mm,
    ev_call ev = Csimulate_magnetic structure angle_times scale bkg dq pp pm mp mm ->
    angle_times = split_times total_time.

(** If [ev] is a call of [simulate_magnetic] made after the log [h], it is
    simulation [j] of time index [i], where [h] holds [20 * i + j]
    simulations, and its plan is the one built from [times[i]]. *)
Definition plans_by_index (h : list event) (ev : event) : Prop :=
  ∀ structure angle_times scale bkg dq pp pm mp mm,
    ev_call ev = Csimulate_magnetic structure angle_times scale bkg dq pp pm mp mm ->
    ∃ i j total_time,
      count is_simulate h = 20 * i + j ∧ j < 20 ∧
      times !! i = Some total_time ∧ angle_times = split_times total_time.

(** A call of [underlayer_info] of the row of [yig_thick]: on [sample],
    with the plan of the cell and a thickness of the Pt grid. *)
Definition row_call (sample : Obj) (yig_thick : float) (ev : event) : Prop :=
  ∃ pt_thick,
    pt_thick ∈ pt_thick_range ∧
    ev_call ev = Cunderlayer_info sample angle_times_fisher yig_thick pt_thick.

End Notebook.

Arguments World : clear implicits.
Arguments Extern : clear implicits.
Arguments Out {Obj Lib A} res final log.
Arguments res {Obj Lib A} o.
Arguments final {Obj Lib A} o.
Arguments log {Obj Lib A} o.

(** ** A small library to run the cells against

    Objects are numbered; a sample's number is also the address of its
    moment parameter, and the structure and the models built from a sample
    keep referring to that parameter. *)

Module Toy.

Fixpoint insert_sorted (v : float) (l : list float) : list float :=
  match l with
  | [] => [v]
  | h :: t => if (v <=? h)%float then v :: l else h :: insert_sorted v t
  end.

Definition sort (l : list float) : list float := foldr insert_sorted [] l.

Definition median (l : list float) : float :=
  let s := sort l in
  let n := length l in
  if Nat.even n
  then ((nth (n / 2 - 1) s 0 + nth (n / 2) s 0) / 2)%float
  else nth (n / 2) s 0%float.

Definition fresh (w : World nat) : result nat * World nat :=
  (Ok (lib w), MkWorld (params w) (arrays w) (S (lib w))).

(** The likelihood read off the moment the models refer to. *)
Definition logl (models : nat) (w : World nat) : float :=
  (100 * default 0 (params w !! models) - 3)%float.

Definition library : Extern nat nat := {|
  ext_SampleYIG := fresh;
  pt_mag := fun sample => sample;
  ext_using_conditions := fun sample _ w => (Ok sample, w);
  ext_simulate_magnetic := fun structure _ _ _ _ _ _ _ _ w =>
    (Ok (structure, S structure), MkWorld (params w) (arrays w) (S (lib w)));
  ext_logl := fun models w => (Ok (logl models w), w);
  ext_underlayer_info := fun _ _ yig_thick pt_thick w =>
    (Ok [[(yig_thick / pt_thick)%float; 0%float]; [0%float; 1%float]], w);
  ext_reflectivity := fun q _ w => (Ok (map (fun v => (1 / v)%float) q), w);
  np_median := median;
  ext_figure := fun _ => fresh;
  ext_add_subplot := fun _ _ => fresh;
  ext_axes := fun _ _ w => (Ok tt, w);
  ext_show := fun w => (Ok tt, w)
|}.

Definition footprint (models : nat) : gset nat := {[ models ]}.

(** A world holding one simulated data set of two points. *)
Definition data_0 : Np.ndarray :=
  Np.NdArray 4 [[0.125; 0.5; 0.0625; 120]; [0.25; 0.25; 0.03125; 80]]%float.

Definition world_0 : World nat := MkWorld ∅ {[ 7 := data_0 ]} 10.

(** What a cell returned, when it returned. *)
Definition returned_value {A} (d : A) (o : @out nat nat A) : A :=
  match res o with
  | Ok a => a
  | Raise _ => d
  end.

(** A library whose likelihood fails from the twenty-sixth sample on. *)
Definition failing_logl : Extern nat nat := {|
  ext_SampleYIG := fresh;
  pt_mag := fun sample => sample;
  ext_using_conditions := fun sample _ w => (Ok sample, w);
  ext_simulate_magnetic := fun structure _ _ _ _ _ _ _ _ w => (Ok (structure, structure), w);
  ext_logl := fun models w =>
    if 35 <? lib w then (Raise (PyExn "ValueError" "no data"), w)
    else (Ok (logl models w), w);
  ext_underlayer_info := fun _ _ _ _ w => (Ok [], w);
  ext_reflectivity := fun _ _ w => (Raise (PyExn "ValueError" "no data"), w);
  np_median := median;
  ext_figure := fun _ => fresh;
  ext_add_subplot := fun _ _ => fresh;
  ext_axes := fun _ _ w => (Ok tt, w);
  ext_show := fun w => (Ok tt, w)
|}.

(** A world whose data set lacks the column of counts. *)
Definition data_short : Np.ndarray :=
  Np.NdArray 3 [[0.125; 0.5; 0.0625]; [0.25; 0.25; 0.03125]]%float.

Definition world_short : World nat := MkWorld ∅ {[ 7 := data_short ]} 10.

(** A world in which the next sample built is the one whose likelihood
    fails under [failing_logl]. *)
Definition world_late : World nat := MkWorld ∅ ∅ 35.

End Toy.

(** ** Reasoning about runs *)

Section Runs.

Context {Obj Lib : Type} {E : Extern Obj Lib}.

Implicit Types (w : World Lib) (L : list (@event Obj)).
Implicit Types (P : @event Obj -> Prop) (c : @call Obj).

Local Abbreviation prog A := (@M Obj Lib A).

Lemma out_eta {A} (o : @out Obj Lib A) : o = Out (res o) (final o) (log o).
Proof. by destruct o. Qed.

(** *** Runs that return *)

Lemma ret_ok {A} (a b : A) w w' L :
  ret a w = Out (Ok b) w' L -> b = a ∧ w' = w ∧ L = [].
Proof. unfold ret. by intros [= -> -> <-]. Qed.

Lemma bind_ok {A B} (m : prog A) (k : A -> prog B) w b w2 L :
  bind m k w = Out (Ok b) w2 L ->
  ∃ a w1 L1 L2, m w = Out (Ok a) w1 L1 ∧ k a w1 = Out (Ok b) w2 L2 ∧ L = L1 ++ L2.
Proof.
  unfold bind. destruct (m w) as [[a|e] w1 L1]; simpl; [|done].
  destruct (k a w1) as [r w2' L2] eqn:Hk; simpl.
  intros [= -> -> <-]. by exists a, w1, L1, L2.
Qed.

Lemma external_ok {A} c (inj : A -> retval) f w a w' L :
  external c inj f w = Out (Ok a) w' L ->
  f w = (Ok a, w') ∧ L = [returned c (inj a)].
Proof.
  unfold external. destruct (f w) as [[a'|e] w1]; [|done].
  by intros [= -> -> <-].
Qed.

Lemma when_ok b (m : prog unit) w u w' L :
  when b m w = Out (Ok u) w' L ->
  if b then m w = Out (Ok u) w' L else w' = w ∧ L = [].
Proof. destruct b; simpl; [done|]. by intros [= _ -> <-]. Qed.

Lemma of_option_ok {A} e (o : option A) w a w' L :
  of_option e o w = Out (Ok a) w' L -> o = Some a ∧ w' = w ∧ L = [].
Proof. destruct o; simpl; [|done]. by intros [= -> -> <-]. Qed.

Lemma length_enumerate {A} (xs : list A) : length (enumerate xs) = length xs.
Proof. unfold enumerate. rewrite length_zip_with, length_seq. lia. Qed.

Lemma enumerate_lookup {A} (xs : list A) i it :
  enumerate xs !! i = Some it <-> it.1 = i ∧ xs !! i = Some it.2.
Proof.
  unfold enumerate. rewrite lookup_zip_with_Some. split.
  - intros (j & x & -> & Hj & Hx). apply lookup_seq in Hj as [-> _]. done.
  - intros [<- Hx]. exists it.1, it.2. split; [by destruct it|].
    split; [|done]. apply lookup_seq. split; [done|]. by apply lookup_lt_Some in Hx.
Qed.

(** A loop that returns: an invariant over the part of the list already
    visited, the locals and the log so far. *)
Lemma for_ok {A S} (I : list A -> S -> list event -> Prop) (body : A -> S -> prog S) :
  (∀ pre x s L w s' w' l,
     I pre s L -> body x s w = Out (Ok s') w' l -> I (pre ++ [x]) s' (L ++ l)) ->
  ∀ xs pre s L w s' w' l,
    I pre s L -> for_ xs body s w = Out (Ok s') w' l -> I (pre ++ xs) s' (L ++ l).
Proof.
  intros Hstep xs. induction xs as [|x xs IH]; intros pre s L w s' w' l HI Hrun.
  - apply ret_ok in Hrun as (-> & _ & ->). by rewrite !app_nil_r.
  - simpl in Hrun. apply bind_ok in Hrun as (s1 & w1 & L1 & L2 & Hb & Hrest & ->).
    rewrite (assoc_L (++)), (cons_middle x pre xs), (assoc_L (++)).
    eapply IH; [|exact Hrest]. eapply Hstep; eauto.
Qed.

Ltac run_inv :=
  repeat match goal with
  | H : bind _ _ _ = Out (Ok _) _ _ |- _ =>
      let a := fresh "a" in let w := fresh "w" in
      let L1 := fresh "L" in let L2 := fresh "L" in let H1 := fresh "Hrun" in
      apply bind_ok in H as (a & w & L1 & L2 & H1 & H & ->)
  | H : (let (_, _) := ?a in _) _ = Out (Ok _) _ _ |- _ => destruct a; simpl in H
  | H : (let '(_, _) := ?a in _) _ = Out (Ok _) _ _ |- _ => destruct a; simpl in H
  | H : ret _ _ = Out (Ok _) _ _ |- _ => apply ret_ok in H as (? & ? & ?)
  | H : of_option _ _ _ = Out (Ok _) _ _ |- _ => apply of_option_ok in H as (? & ? & ?)
  | H : external _ _ _ _ = Out (Ok _) _ _ |- _ =>
      let Hl := fresh "Hlog" in apply external_ok in H as [H Hl]
  end.

(** *** One pass of the inner loop of [calc_log_ratios] *)

Lemma simulate_ratio_run pt_thick total_time temp w temp' w' L :
  simulate_ratio pt_thick total_time temp w = Out (Ok temp') w' L ->
  ∃ p w1 w2,
    temp' = temp ++ [pass_ratio p] ∧
    L = pass_log pt_thick total_time p ∧
    ext_logl (pass_models p) w1 = (Ok (logl_1 p), w2) ∧
    ext_logl (pass_models p) (assigned (pt_mag (pass_sample p)) 0 w2)
      = (Ok (logl_2 p), w').
Proof.
  unfold simulate_ratio, SampleYIG, set_value, using_conditions,
    simulate_magnetic, _logl. intros H. run_inv. simplify_eq.
  match goal with
  | H1 : ext_logl ?m ?wa = (Ok ?l1, ?wb), H2 : ext_logl ?m _ = (Ok ?l2, _),
    H3 : ext_simulate_magnetic ?st _ _ _ _ _ _ _ _ _ = (Ok (_, ?d), _),
    H4 : ext_SampleYIG _ = (Ok ?sm, _) |- _ =>
      exists (Pass sm st m d l1 l2), wa, wb
  end.
  by rewrite app_nil_r.
Qed.

Lemma print_ok (line : string) w u w' L :
  print line w = Out (Ok u) w' L -> w' = w ∧ L = [returned (Cprint line) Rnone].
Proof. unfold print. intros H. run_inv. by simplify_eq. Qed.

(** *** The loops of [calc_log_ratios] *)

Lemma inner_loop_run pt_thick total_time w temp w' L :
  for_ (range 20) (fun _ temp => simulate_ratio pt_thick total_time temp) [] w
    = Out (Ok temp) w' L ->
  ∃ ps, length ps = 20 ∧ temp = map pass_ratio ps ∧
        L = concat (map (pass_log pt_thick total_time) ps).
Proof.
  intros Hrun.
  pose (I := fun (pre : list nat) (temp : list float) (L : list (@event Obj)) =>
    ∃ ps, length ps = length pre ∧ temp = map pass_ratio ps ∧
          L = concat (map (pass_log pt_thick total_time) ps)).
  assert (I ([] ++ range 20) temp ([] ++ L)) as HI.
  { eapply (for_ok I); [|by exists []|exact Hrun].
    intros pre j temp0 L0 w0 temp' w0' l (ps & Hlen & -> & ->) Hrun0.
    apply simulate_ratio_run in Hrun0 as (p & _ & _ & -> & -> & _).
    exists (ps ++ [p]). rewrite !length_app, !map_app, concat_app. simpl.
    rewrite Hlen. auto. }
  destruct HI as (ps & Hlen & Htemp & HL).
  rewrite app_nil_l in Hlen, HL. unfold range in Hlen. rewrite length_seq in Hlen.
  by exists ps.
Qed.

Lemma calc_log_ratios_run pt_thick w ratios w' L :
  calc_log_ratios pt_thick w = Out (Ok ratios) w' L ->
  ∃ pss, length pss = length times ∧
         Forall (fun ps => length ps = 20) pss ∧
         ratios = map (fun ps => np_median (map pass_ratio ps)) pss ∧
         L = ratios_log pt_thick pss.
Proof.
  unfold calc_log_ratios. intros Hrun.
  apply bind_ok in Hrun as (ratios0 & w0 & L0 & L1 & Hrun & Hret & ->).
  apply ret_ok in Hret as (-> & -> & ->). rewrite app_nil_r.
  pose (I := fun (pre : list (nat * float)) (ratios : list float) (L : list (@event Obj)) =>
    ∃ pss, length pss = length pre ∧
           Forall (fun ps => length ps = 20) pss ∧
           ratios = map (fun ps => np_median (map pass_ratio ps)) pss ∧
           L = concat (zip_with (time_chunk pt_thick) pre pss)).
  assert (I ([] ++ enumerate times) ratios0 ([] ++ L0)) as HI.
  { eapply (for_ok I); [|by exists []|exact Hrun].
    clear Hrun.
    intros pre [i t] ratios1 L1 w1 ratios' w1' l (pss & Hlen & Hall & -> & ->) Hrun.
    run_inv. simplify_eq.
    match goal with H : for_ _ _ _ _ = _ |- _ =>
      apply inner_loop_run in H as (ps & Hps & -> & ->) end.
    exists (pss ++ [ps]). rewrite !length_app, Hlen. split; [done|].
    split; [apply Forall_app; auto|]. split; [by rewrite map_app|].
    rewrite zip_with_app, concat_app by done. cbn [zip_with concat].
    rewrite !app_nil_r. f_equal. unfold time_chunk, progress_times.
    cbn [fst snd]. f_equal.
    match goal with H : when _ _ _ = _ |- _ => apply when_ok in H end.
    destruct (i mod 20 =? 0).
    - match goal with H : print _ _ = _ |- _ => by apply print_ok in H as [_ ->] end.
    - by destruct_and!. }
  destruct HI as (pss & Hlen & Hall & Hratios & HL).
  rewrite app_nil_l in Hlen, HL. rewrite length_enumerate in Hlen. by exists pss.
Qed.

(** *** The loops of the thickness sweep *)

Lemma calls_app (L1 L2 : list (@event Obj)) :
  calls (L1 ++ L2) = calls L1 ++ calls L2.
Proof. apply filter_app. Qed.

Lemma calls_info (sample : Obj) yps gs :
  calls (zip_with (info_event sample) yps gs) = zip_with (info_event sample) yps gs.
Proof.
  revert gs. induction yps as [|yp yps IH]; intros [|g gs]; try done.
  cbn [zip_with]. unfold calls in *. rewrite filter_cons_True by done.
  by rewrite IH.
Qed.

Lemma sweep_row_run sample yig_thick pts x0 y0 infos0 w acc w' L :
  for_ pts (fun pt_thick '(x, y, infos) =>
      bind (underlayer_info sample angle_times_fisher yig_thick pt_thick) (fun g =>
      bind (of_option IndexError (Np.item00 g)) (fun g00 =>
      ret (x ++ [yig_thick], y ++ [pt_thick], infos ++ [g00]))))
    (x0, y0, infos0) w = Out (Ok acc) w' L ->
  ∃ gs vs,
    Forall2 (fun g v => Np.item00 g = Some v) gs vs ∧
    length gs = length pts ∧
    acc = (x0 ++ map (fun _ => yig_thick) pts, y0 ++ pts, infos0 ++ vs) ∧
    L = zip_with (info_event sample) (map (pair yig_thick) pts) gs.
Proof.
  intros Hrun.
  pose (I := fun (pre : list float) (acc : list float * list float * list float)
                 (L : list (@event Obj)) =>
    ∃ gs vs,
      Forall2 (fun g v => Np.item00 g = Some v) gs vs ∧
      length gs = length pre ∧
      acc = (x0 ++ map (fun _ => yig_thick) pre, y0 ++ pre, infos0 ++ vs) ∧
      L = zip_with (info_event sample) (map (pair yig_thick) pre) gs).
  assert (I ([] ++ pts) acc ([] ++ L)) as HI; [|exact HI].
  eapply (for_ok I); [| |exact Hrun].
  2:{ exists [], []. by rewrite !app_nil_r. }
  clear Hrun. intros pre pt [[x y] infos] L1 w1 acc1 w1' l (gs & vs & Hgv & Hlen & Hacc & ->) Hrun.
  unfold underlayer_info in Hrun. run_inv. simplify_eq.
  match goal with
  | H : ext_underlayer_info _ _ _ _ _ = (Ok ?g, _), H' : Np.item00 _ = Some ?v |- _ =>
      exists (gs ++ [g]), (vs ++ [v])
  end.
  split; [apply Forall2_app; auto|].
  rewrite !length_app, !map_app, Hlen, zip_with_app by by rewrite length_map.
  rewrite <- !(assoc_L (++)). by rewrite app_nil_r.
Qed.

Lemma fisher_sweep_run sample w x y infos w' L :
  fisher_sweep sample w = Out (Ok (x, y, infos)) w' L ->
  ∃ gs,
    Forall2 (fun g v => Np.item00 g = Some v) gs infos ∧
    length gs = length grid_pairs ∧
    x = map fst grid_pairs ∧
    y = map snd grid_pairs ∧
    calls L = zip_with (info_event sample) grid_pairs gs.
Proof.
  unfold fisher_sweep. intros Hrun.
  pose (I := fun (pre : list (nat * float)) (acc : list float * list float * list float)
                 (L : list (@event Obj)) =>
    ∃ gs,
      Forall2 (fun g v => Np.item00 g = Some v) gs acc.2 ∧
      length gs = length (pairs_of (map snd pre)) ∧
      acc.1.1 = map fst (pairs_of (map snd pre)) ∧
      acc.1.2 = map snd (pairs_of (map snd pre)) ∧
      calls L = zip_with (info_event sample) (pairs_of (map snd pre)) gs).
  assert (I ([] ++ enumerate yig_thick_range) (x, y, infos) ([] ++ L)) as HI.
  { eapply (for_ok I); [| |exact Hrun].
    2:{ exists []. repeat split. constructor. }
    clear Hrun. intros pre [i yig] [[x1 y1] infos1] L1 w1 acc1 w1' l
      (gs & Hgv & Hlen & Hx & Hy & HL) Hrun.
    cbn [fst snd] in *. run_inv.
    match goal with H : for_ _ _ _ _ = _ |- _ =>
      apply sweep_row_run in H as (gs' & vs & Hgv' & Hlen' & -> & ->) end.
    exists (gs ++ gs'). cbn [fst snd].
    unfold pairs_of in *. rewrite map_app, bind_app. cbn [map mbind list_bind].
    rewrite app_nil_r. unfold grid_row at 2 4 6 8.
    rewrite !map_app, !length_app, zip_with_app by done.
    rewrite length_map, !map_map. cbn [fst snd]. rewrite map_id.
    rewrite Hx, Hy, Hlen, Hlen'. repeat split; [by apply Forall2_app|].
    rewrite !calls_app, HL, calls_info.
    match goal with H : when _ _ _ = _ |- _ => apply when_ok in H end.
    destruct (i mod 5 =? 0).
    - match goal with H : print _ _ = _ |- _ => by apply print_ok in H as [_ ->] end.
    - by destruct_and!; subst. }
  destruct HI as (gs & Hgv & Hlen & Hx & Hy & HL).
  assert (map snd (enumerate yig_thick_range) = yig_thick_range) as Hsnd.
  { unfold enumerate. apply snd_zip. rewrite length_seq. lia. }
  rewrite app_nil_l, Hsnd in *. by exists gs.
Qed.

(** *** Every run, returning or not: what the log may contain *)

Lemma logs_ret {A} P (a : A) : logs P (ret a : prog A).
Proof. intros w. constructor. Qed.

Lemma logs_raise {A} P e : logs P (raise e : prog A).
Proof. intros w. constructor. Qed.

Lemma logs_bind {A B} P (m : prog A) (k : A -> prog B) :
  logs P m -> (∀ a, logs P (k a)) -> logs P (bind m k).
Proof.
  intros Hm Hk w. unfold bind. specialize (Hm w).
  destruct (res (m w)) as [a|e]; simpl; [|done].
  apply Forall_app. split; [done|apply Hk].
Qed.

Lemma logs_external {A} P c (inj : A -> retval)
    (f : World Lib -> result A * World Lib) :
  (∀ r, P (Event c r)) -> logs P (external c inj f).
Proof.
  intros HP w. unfold external. destruct (f w) as [r w']. simpl.
  constructor; [apply HP|constructor].
Qed.

Lemma logs_for {A S} P (xs : list A) (body : A -> S -> prog S) s :
  (∀ x s, x ∈ xs -> logs P (body x s)) -> logs P (for_ xs body s).
Proof.
  revert s. induction xs as [|x xs IH]; intros s Hbody; simpl.
  - apply logs_ret.
  - apply logs_bind; [apply Hbody; left|].
    intros s'. apply IH. intros y s'' Hy. apply Hbody. by right.
Qed.

Lemma logs_when P b (m : prog unit) : logs P m -> logs P (when b m).
Proof. destruct b; [done|]. intros _. apply logs_ret. Qed.

Lemma logs_of_option {A} P e (o : option A) : logs P (of_option e o : prog A).
Proof. destruct o; [apply logs_ret|apply logs_raise]. Qed.

Lemma enumerate_elem {A} (xs : list A) it : it ∈ enumerate xs -> it.2 ∈ xs.
Proof.
  intros [i Hi]%list_elem_of_lookup. apply enumerate_lookup in Hi as [_ Hi].
  by eapply list_elem_of_lookup_2.
Qed.

Lemma simulate_ratio_prints_nothing pt_thick total_time temp :
  logs (fun ev => is_print ev = false) (simulate_ratio pt_thick total_time temp).
Proof.
  unfold simulate_ratio.
  repeat first
    [ apply logs_ret
    | apply logs_bind; [|intros ?]
    | match goal with |- logs _ (let (_, _) := ?a in _) => destruct a end
    | by apply logs_external ].
Qed.

Lemma log_bind_ret {A B} (m : prog A) (f : A -> B) w :
  log (bind m (fun a => ret (f a)) w) = log (m w) ∧
  ∀ b, res (bind m (fun a => ret (f a)) w) = Ok b -> ∃ a, res (m w) = Ok a.
Proof.
  unfold bind. destruct (res (m w)) as [a|e]; simpl.
  - rewrite app_nil_r. eauto.
  - done.
Qed.

(** *** Every run: exceptions *)

Lemma propagated_nil {A} (o : @out Obj Lib A) : log o = [] -> propagated o.
Proof. intros H. left. rewrite H. constructor. Qed.

Lemma propagates_ret {A} (a : A) : propagates (ret a : prog A).
Proof. intros w. by apply propagated_nil. Qed.

Lemma propagates_raise {A} e : propagates (raise e : prog A).
Proof. intros w. by apply propagated_nil. Qed.

Lemma propagates_bind {A B} (m : prog A) (k : A -> prog B) :
  propagates m -> (∀ a, propagates (k a)) -> propagates (bind m k).
Proof.
  intros Hm Hk w. unfold bind. specialize (Hm w).
  destruct (res (m w)) as [a|e] eqn:Hres.
  2:{ destruct Hm as [Hm|(pre & ev & e' & Hlog & Hpre & Hev & Hr)]; [by left|].
      right. exists pre, ev, e'. simpl. repeat split; [done..|congruence]. }
  destruct Hm as [Hm|(pre & ev & e & _ & _ & _ & ?)]; [|congruence].
  destruct (Hk a (final (m w))) as [Hq|(pre & ev & e & Hlog & Hpre & Hev & Hr)].
  - left. simpl. by apply Forall_app.
  - right. exists (log (m w) ++ pre), ev, e. simpl. rewrite Hlog.
    split; [by rewrite (assoc_L (++))|]. split; [by apply Forall_app|done].
Qed.

Lemma propagates_external {A} c (inj : A -> retval)
    (f : World Lib -> result A * World Lib) :
  propagates (external c inj f).
Proof.
  intros w. unfold external. destruct (f w) as [[a|e] w'].
  - left. by repeat constructor.
  - right. exists [], (Event c (Raise e)), e. by repeat split.
Qed.

Lemma propagates_for {A S} (xs : list A) (body : A -> S -> prog S) s :
  (∀ x s, propagates (body x s)) -> propagates (for_ xs body s).
Proof.
  intros Hbody. revert s. induction xs as [|x xs IH]; intros s; simpl.
  - apply propagates_ret.
  - by apply propagates_bind.
Qed.

Lemma propagates_when b (m : prog unit) : propagates m -> propagates (when b m).
Proof. destruct b; [done|]. intros _. apply propagates_ret. Qed.

Lemma propagates_of_option {A} e (o : option A) : propagates (of_option e o : prog A).
Proof. destruct o; [apply propagates_ret|apply propagates_raise]. Qed.

Lemma propagates_column_view data j : propagates (column_view data j : prog _).
Proof.
  intros w. apply propagated_nil. unfold column_view.
  destruct (arrays w !! data); [|done]. by destruct (_ <? _).
Qed.

Lemma propagates_deref v : propagates (deref v : prog _).
Proof. intros w. unfold deref. apply propagates_of_option. Qed.

(** A call that raised is the last of the log, and its exception is the
    result of the run. *)
Lemma propagated_raised {A} (o : @out Obj Lib A) ev e :
  propagated o -> ev ∈ log o -> raised ev = Some e ->
  res o = Raise e ∧ ∃ pre, log o = pre ++ [ev].
Proof.
  intros [Hq|(pre & ev' & e' & Hlog & Hpre & Hev' & Hres)] Hin Hev.
  - rewrite Forall_forall in Hq. apply Hq in Hin. congruence.
  - rewrite Hlog in Hin. apply elem_of_app in Hin as [Hin|Hin].
    + rewrite Forall_forall in Hpre. apply Hpre in Hin. congruence.
    + apply list_elem_of_singleton in Hin as ->.
      split; [congruence|by exists pre].
Qed.

(** *** Every run: what the world keeps *)

Lemma keeps_bind {X A B} (obs : World Lib -> X) (m : prog A) (k : A -> prog B) :
  keeps obs m -> (∀ a, keeps obs (k a)) -> keeps obs (bind m k).
Proof.
  intros Hm Hk w. unfold bind. specialize (Hm w).
  destruct (res (m w)) as [a|e]; simpl; [|done].
  by rewrite Hk.
Qed.

Lemma keeps_external {X A} (obs : World Lib -> X) c (inj : A -> retval)
    (f : World Lib -> result A * World Lib) :
  (∀ w, obs (f w).2 = obs w) -> keeps obs (external c inj f).
Proof.
  intros Hf w. unfold external. specialize (Hf w). by destruct (f w).
Qed.

Lemma keeps_of_option {X A} (obs : World Lib -> X) e (o : option A) :
  keeps obs (of_option e o : prog A).
Proof. by destruct o. Qed.

Lemma keeps_column_view {X} (obs : World Lib -> X) data j :
  keeps obs (column_view data j : prog _).
Proof.
  intros w. unfold column_view. destruct (arrays w !! data); [|done].
  by destruct (_ <? _).
Qed.

Lemma keeps_deref {X} (obs : World Lib -> X) v : keeps obs (deref v : prog _).
Proof. intros w. unfold deref. apply keeps_of_option. Qed.

(** *** Runs against a library that never raises *)

Lemma returns_ret {A} (P : A -> Prop) (a : A) : P a -> returns P (ret a : prog A).
Proof. intros HP w. by exists a. Qed.

Lemma returns_bind {A B} (Q : A -> Prop) (P : B -> Prop)
    (m : prog A) (k : A -> prog B) :
  returns Q m -> (∀ a, Q a -> returns P (k a)) -> returns P (bind m k).
Proof.
  intros Hm Hk w. destruct (Hm w) as (a & Ha & HQ).
  destruct (Hk a HQ (final (m w))) as (b & Hb & HP).
  exists b. unfold bind. by rewrite Ha.
Qed.

Lemma returns_external {A} (P : A -> Prop) c (inj : A -> retval)
    (f : World Lib -> result A * World Lib) :
  (∀ w, ∃ a, (f w).1 = Ok a ∧ P a) -> returns P (external c inj f).
Proof.
  intros Hf w. destruct (Hf w) as (a & Ha & HP). exists a.
  unfold external. destruct (f w) as [r w1]. simpl in *. by subst.
Qed.

Lemma returns_for {A S} (xs : list A) (body : A -> S -> prog S) s :
  (∀ x s, returns (fun _ => True) (body x s)) ->
  returns (fun _ => True) (for_ xs body s).
Proof.
  intros Hbody. revert s. induction xs as [|x xs IH]; intros s; cbn [for_].
  - by apply returns_ret.
  - eapply returns_bind; [apply Hbody|]. intros s' _. apply IH.
Qed.

Lemma returns_progress {B} (P : B -> Prop) b line (k : unit -> prog B) :
  returns P (k tt) -> returns P (bind (when b (print line)) k).
Proof.
  intros Hk. eapply (returns_bind (fun _ => True)).
  - destruct b; [|by apply returns_ret].
    apply returns_external. intros w. by exists tt.
  - by intros [] _.
Qed.

Lemma returns_set_value p v : returns (fun _ => True) (set_value p v : prog unit).
Proof. apply returns_external. intros w. by exists tt. Qed.

Lemma calc_log_ratios_returns pt_thick :
  cooperative -> returns (fun _ => True) (calc_log_ratios pt_thick).
Proof.
  intros (Hsample & Huse & Hsim & Hlogl & _).
  unfold calc_log_ratios.
  eapply (returns_bind (fun _ => True)); [|intros; by apply returns_ret].
  apply returns_for. intros [i total_time] ratios.
  apply returns_progress.
  eapply (returns_bind (fun _ => True)); [|intros; by apply returns_ret].
  apply returns_for. intros _ temp. unfold simulate_ratio.
  eapply (returns_bind (fun _ => True)).
  { apply returns_external. intros w. destruct (Hsample w). eauto. }
  intros sample _.
  eapply (returns_bind (fun _ => True)); [apply returns_set_value|]. intros _ _.
  eapply (returns_bind (fun _ => True)).
  { apply returns_external. intros w. destruct (Huse sample pt_thick w). eauto. }
  intros structure _.
  eapply (returns_bind (fun _ => True)).
  { apply returns_external. intros w.
    destruct (Hsim structure (split_times total_time) 1%float bkg_magnetic 2%float
                true false false true w). eauto. }
  intros [models datasets] _.
  eapply (returns_bind (fun _ => True)).
  { apply returns_external. intros w. destruct (Hlogl models w). eauto. }
  intros logl_1 _.
  eapply (returns_bind (fun _ => True)); [apply returns_set_value|]. intros _ _.
  eapply (returns_bind (fun _ => True)).
  { apply returns_external. intros w. destruct (Hlogl models w). eauto. }
  intros logl_2 _. by apply returns_ret.
Qed.

Lemma fisher_sweep_returns sample :
  cooperative -> returns (fun _ => True) (fisher_sweep sample).
Proof.
  intros (_ & _ & _ & _ & Hinfo & _).
  unfold fisher_sweep. cbv zeta.
  apply returns_for. intros [i yig_thick] acc.
  apply returns_progress.
  apply returns_for. intros pt_thick [[x y] infos].
  eapply (returns_bind (fun g => ∃ v, Np.item00 g = Some v)).
  { apply returns_external. intros w.
    destruct (Hinfo sample angle_times_fisher yig_thick pt_thick w) as (g & v & ? & ?).
    eauto. }
  intros g [v Hv]. rewrite Hv. cbn [of_option].
  eapply (returns_bind (fun _ => True)); [by apply returns_ret|].
  intros g00 _. by apply returns_ret.
Qed.

Lemma log_ratio_figure_returns :
  cooperative -> returns (fun _ => True) log_ratio_figure.
Proof.
  intros Hco. pose proof Hco as (_ & _ & _ & _ & _ & Hfig & Hsub & Hax).
  unfold log_ratio_figure.
  eapply (returns_bind (fun _ => True)).
  { apply returns_external. intros w. destruct (Hfig (6, 7)%float w). eauto. }
  intros fig _.
  eapply (returns_bind (fun _ => True)).
  { apply returns_external. intros w. destruct (Hsub fig 111%Z w). eauto. }
  intros ax _.
  repeat first
    [ by apply returns_ret
    | by apply calc_log_ratios_returns
    | apply returns_external; intros w; exists tt; by rewrite Hax
    | eapply (returns_bind (fun _ => True)); [|intros ? _] ].
Qed.

(** *** [plot_reflectivity] *)

Lemma column_view_ok data j w v w' L :
  column_view data j w = Out (Ok v) w' L ->
  v = (data, j) ∧ w' = w ∧ L = [] ∧
  ∃ a, arrays w !! data = Some a ∧ j < Np.ncols a.
Proof.
  unfold column_view. destruct (arrays w !! data) as [a|]; [|done].
  destruct (j <? Np.ncols a) eqn:Hj; [|done].
  intros [= <- <- <-]. repeat split. exists a. split; [done|].
  by apply Nat.ltb_lt.
Qed.

Lemma deref_ok v w xs w' L :
  deref v w = Out (Ok xs) w' L ->
  w' = w ∧ L = [] ∧ ∃ a, arrays w !! v.1 = Some a ∧ Np.column v.2 a = Some xs.
Proof.
  unfold deref. intros (Hsome & -> & ->)%of_option_ok. repeat split.
  destruct (arrays w !! v.1) as [a|]; [|done]. by exists a.
Qed.

Lemma propagates_plot_reflectivity model data :
  propagates (plot_reflectivity model data).
Proof.
  unfold plot_reflectivity.
  repeat first
    [ apply propagates_bind; [|intros ?]
    | apply propagates_column_view
    | apply propagates_deref
    | apply propagates_external ].
Qed.

Lemma propagates_simulate_ratio pt_thick total_time temp :
  propagates (simulate_ratio pt_thick total_time temp).
Proof.
  unfold simulate_ratio.
  repeat first
    [ apply propagates_ret
    | apply propagates_bind; [|intros ?]
    | match goal with |- propagates (let (_, _) := ?a in _) => destruct a end
    | apply propagates_external ].
Qed.

Lemma propagates_calc_log_ratios pt_thick : propagates (calc_log_ratios pt_thick).
Proof.
  unfold calc_log_ratios. apply propagates_bind; [|intros; apply propagates_ret].
  apply propagates_for. intros [i total_time] ratios.
  apply propagates_bind; [apply propagates_when, propagates_external|].
  intros _. apply propagates_bind; [|intros; apply propagates_ret].
  apply propagates_for. intros. apply propagates_simulate_ratio.
Qed.

Lemma keeps_plot_reflectivity {X} (obs : World Lib -> X) model data :
  untouched_by_plotting obs -> keeps obs (plot_reflectivity model data).
Proof.
  intros (Hrefl & Hfig & Hsub & Hax & Hshow). unfold plot_reflectivity.
  repeat first
    [ apply keeps_bind; [|intros ?]
    | apply keeps_column_view
    | apply keeps_deref
    | apply keeps_external; auto ].
Qed.

(** Record that an external call of [plot_reflectivity] kept the
    observation [obs]. *)
Ltac note_kept Hk :=
  destruct Hk as (Hk1 & Hk2 & Hk3 & Hk4 & Hk5);
  repeat match goal with
  | H : ext_reflectivity ?q ?m ?w1 = (_, ?w2) |- _ =>
      let K := fresh "Hkept" in
      pose proof (Hk1 q m w1) as K; rewrite H in K; cbn [snd] in K; revert H
  | H : ext_figure ?sz ?w1 = (_, ?w2) |- _ =>
      let K := fresh "Hkept" in
      pose proof (Hk2 sz w1) as K; rewrite H in K; cbn [snd] in K; revert H
  | H : ext_add_subplot ?f ?c ?w1 = (_, ?w2) |- _ =>
      let K := fresh "Hkept" in
      pose proof (Hk3 f c w1) as K; rewrite H in K; cbn [snd] in K; revert H
  | H : ext_axes ?ax ?c ?w1 = (_, ?w2) |- _ =>
      let K := fresh "Hkept" in
      pose proof (Hk4 ax c w1) as K; rewrite H in K; cbn [snd] in K; revert H
  | H : ext_show ?w1 = (_, ?w2) |- _ =>
      let K := fresh "Hkept" in
      pose proof (Hk5 w1) as K; rewrite H in K; cbn [snd] in K; revert H
  end;
  intros.

Lemma plot_reflectivity_run model data w a u w' L :
  arrays w !! data = Some a ->
  untouched_by_plotting (fun w => arrays w !! data) ->
  plot_reflectivity model data w = Out (Ok u) w' L ->
  ∃ q r dr counts r_model fig ax,
    Np.column 0 a = Some q ∧ Np.column 1 a = Some r ∧
    Np.column 2 a = Some dr ∧ Np.column 3 a = Some counts ∧
    L = [ returned (Creflectivity q model) (Rarray r_model);
          returned (Cfigure (9, 7)%float) (Robj fig);
          returned (Cadd_subplot fig 111) (Robj ax);
          returned (Caxes ax (Aplot q r_model
            [("color", VStr "red"); ("zorder", VInt 20); ("label", VStr "Model")]))
            Rnone;
          returned (Caxes ax (Aerrorbar q r dr
            [("color", VStr "black"); ("marker", VStr "o"); ("ms", VInt 3);
             ("lw", VInt 0); ("elinewidth", VInt 1); ("capsize", VFloat 1.5);
             ("label", VStr "Simulated")])) Rnone;
          returned (Caxes ax (Aset_xlabel "$\mathregular{Q\ (Å^{-1})}$" bold11)) Rnone;
          returned (Caxes ax (Aset_ylabel "Reflectivity (arb.)" bold11)) Rnone;
          returned (Caxes ax (Aset_yscale "log")) Rnone;
          returned (Caxes ax (Aset_xlim 0 xlim_hi)) Rnone;
          returned (Caxes ax Alegend) Rnone;
          returned Cshow Rnone ].
Proof.
  intros Ha Hkeep Hrun. unfold plot_reflectivity in Hrun.
  unfold reflectivity, plt_figure, add_subplot, axes, plt_show in Hrun.
  repeat match goal with
  | H : bind _ _ _ = Out (Ok _) _ _ |- _ =>
      let a := fresh "a" in let w := fresh "w" in
      let L1 := fresh "L" in let L2 := fresh "L" in let H1 := fresh "Hrun" in
      apply bind_ok in H as (a & w & L1 & L2 & H1 & H & ->)
  | H : column_view _ _ _ = Out (Ok _) _ _ |- _ =>
      apply column_view_ok in H as (-> & -> & -> & ? & ? & ?)
  | H : deref _ _ = Out (Ok _) _ _ |- _ =>
      apply deref_ok in H as (-> & -> & ? & ? & ?)
  | H : external _ _ _ _ = Out (Ok _) _ _ |- _ =>
      let Hl := fresh "Hlog" in apply external_ok in H as [H Hl]
  end.
  cbn [fst snd] in *. note_kept Hkeep.
  repeat match goal with
  | H : arrays _ !! data = Some ?x |- _ =>
      assert (x = a) as -> by congruence; clear H
  end.
  assert (∃ counts, Np.column 3 a = Some counts) as [counts Hcounts].
  { unfold Np.column.
    match goal with H : 3 < Np.ncols a |- _ => apply Nat.ltb_lt in H; rewrite H end.
    eauto. }
  match goal with
  | Hq : Np.column 0 a = Some ?q, Hr : Np.column 1 a = Some ?r,
    Hdr : Np.column 2 a = Some ?dr,
    Hm : ext_reflectivity _ _ _ = (Ok ?rm, _),
    Hf : ext_figure _ _ = (Ok ?fig, _),
    Hs : ext_add_subplot _ _ _ = (Ok ?ax, _) |- _ =>
      exists q, r, dr, counts, rm, fig, ax
  end.
  simplify_eq. by repeat split.
Qed.

(** *** The figure of the log ratios *)

Lemma calc_log_ratios_plots_nothing pt_thick :
  logs (fun ev => is_plot ev = false) (calc_log_ratios pt_thick).
Proof.
  unfold calc_log_ratios. apply logs_bind; [|intros; apply logs_ret].
  apply logs_for. intros [i total_time] ratios _.
  apply logs_bind; [by apply logs_when, logs_external|].
  intros _. apply logs_bind; [|intros; apply logs_ret].
  apply logs_for. intros _ temp _. unfold simulate_ratio.
  repeat first
    [ apply logs_ret
    | apply logs_bind; [|intros ?]
    | match goal with |- logs _ (let (_, _) := ?a in _) => destruct a end
    | by apply logs_external ].
Qed.

Lemma filter_plots_none (L : list (@event Obj)) :
  Forall (fun ev => is_plot ev = false) L ->
  filter (fun ev => is_plot ev = true) L = [].
Proof.
  induction 1 as [|ev L Hev _ IH]; [done|].
  rewrite filter_cons_False; [done|]. by rewrite Hev.
Qed.

Lemma log_ratio_figure_run w fig w' L :
  log_ratio_figure w = Out (Ok fig) w' L ->
  ∃ ax pss26 pss80,
    length pss26 = length times ∧ Forall (fun ps => length ps = 20) pss26 ∧
    length pss80 = length times ∧ Forall (fun ps => length ps = 20) pss80 ∧
    filter (fun ev => is_plot ev = true) L =
      [ returned (Caxes ax (Aplot (Np.scale 1.5 times)
                   (map (fun ps => np_median (map pass_ratio ps)) pss26)
                   (label "26Å Pt Thickness"))) Rnone;
        returned (Caxes ax (Aplot (Np.scale 1.5 times)
                   (map (fun ps => np_median (map pass_ratio ps)) pss80)
                   (label "80Å Pt Thickness"))) Rnone ] ∧
    L = [ returned (Cfigure (6, 7)%float) (Robj fig);
          returned (Cadd_subplot fig 111) (Robj ax) ] ++
        ratios_log 26 pss26 ++
        [ returned (Caxes ax (Aplot (Np.scale 1.5 times)
                     (map (fun ps => np_median (map pass_ratio ps)) pss26)
                     (label "26Å Pt Thickness"))) Rnone ] ++
        ratios_log 80 pss80 ++
        [ returned (Caxes ax (Aplot (Np.scale 1.5 times)
                     (map (fun ps => np_median (map pass_ratio ps)) pss80)
                     (label "80Å Pt Thickness"))) Rnone;
          returned (Caxes ax (Aset_xlabel "Counting Time (min.)" bold11)) Rnone;
          returned (Caxes ax (Aset_ylabel "Log Ratio of Likelihoods" bold11)) Rnone;
          returned (Caxes ax Alegend) Rnone ].
Proof.
  unfold log_ratio_figure, plt_figure, add_subplot, axes. intros Hrun.
  repeat match goal with
  | H : bind _ _ _ = Out (Ok _) _ _ |- _ =>
      let a := fresh "a" in let w := fresh "w" in
      let L1 := fresh "L" in let L2 := fresh "L" in let H1 := fresh "Hrun" in
      apply bind_ok in H as (a & w & L1 & L2 & H1 & H & ->)
  | H : ret _ _ = Out (Ok _) _ _ |- _ => apply ret_ok in H as (? & ? & ?)
  | H : external _ _ _ _ = Out (Ok _) _ _ |- _ =>
      let Hl := fresh "Hlog" in apply external_ok in H as [H Hl]
  | H : calc_log_ratios ?pt ?w = Out (Ok _) _ ?L |- _ =>
      let Hq := fresh "Hquiet" in
      pose proof (calc_log_ratios_plots_nothing pt w) as Hq;
      rewrite H in Hq; cbn [log] in Hq;
      apply filter_plots_none in Hq;
      apply calc_log_ratios_run in H as (? & ? & ? & ? & ?)
  end.
  match goal with
  | H26 : ?L26 = ratios_log 26 ?pss26, H80 : ?L80 = ratios_log 80 ?pss80,
    Hax : ext_add_subplot _ _ _ = (Ok ?ax, _) |- _ =>
      exists ax, pss26, pss80
  end.
  repeat (split; [done|]). split.
  - rewrite !filter_app.
    repeat match goal with H : filter _ _ = [] |- _ => rewrite H; clear H end.
    subst.
    repeat first [ rewrite filter_cons_True by done
                 | rewrite filter_cons_False by (by cbn) ].
    by rewrite !filter_nil.
  - subst. by rewrite app_nil_r.
Qed.

End Runs.

(** ** The grids, evaluated *)

Lemma times_length : length times = 100.
Proof. vm_compute. reflexivity. Qed.

Lemma yig_thick_range_length : length yig_thick_range = 60.
Proof. vm_compute. reflexivity. Qed.

Lemma pt_thick_range_length : length pt_thick_range = 50.
Proof. vm_compute. reflexivity. Qed.

(** Two floats that the comparison [=?] tells apart are different. *)
Ltac float_neq :=
  let H := fresh in
  intros H;
  match type of H with
  | _ = ?b => apply (f_equal (fun x => PrimFloat.eqb x b)) in H
  end;
  vm_compute in H; discriminate H.

Lemma times_first : times !! 0 = Some 40%float.
Proof. vm_compute. reflexivity. Qed.

(** Replace a grid by its value. *)
Ltac evaluate_grid g :=
  let v := eval vm_compute in g in change g with v.

(** Python's sum of the three per-angle times hits the total time or the
    float just below it. *)
Lemma split_times_sum_rounded :
  Forall (fun total_time =>
            py_sum (map snd (split_times total_time)) = total_time ∨
            py_sum (map snd (split_times total_time)) = next_down total_time)
    times.
Proof.
  evaluate_grid times.
  repeat (apply Forall_cons; split;
          [vm_compute; first [left; reflexivity | right; reflexivity]|]).
  apply Forall_nil_2.
Qed.

Lemma angle_splits_sum : py_sum (map snd angle_splits) = 1%float.
Proof. vm_compute. reflexivity. Qed.

Lemma split_times_shape total_time :
  split_times total_time =
    [ (0.5, 100%Z, 1 / 7 * total_time);
      (1.0, 100%Z, 2 / 7 * total_time);
      (2.0, 100%Z, 4 / 7 * total_time) ]%float.
Proof. reflexivity. Qed.

Lemma grid_pairs_length : length grid_pairs = 3000.
Proof. vm_compute. reflexivity. Qed.

(** [grid_pairs] is the comprehension over the YIG grid, then the Pt grid. *)
Lemma grid_pairs_row_major :
  grid_pairs =
    (yig_thick ← yig_thick_range; pt_thick ← pt_thick_range; [(yig_thick, pt_thick)]).
Proof. vm_compute. reflexivity. Qed.




(** Added exactly, as real numbers, the three per-angle times for a total
    of 40 fall short of 40 by [3 * 2^-49]. *)
Lemma split_times_exact_sum_40 :
  match map scaled_60 (map snd (split_times 40)), scaled_60 40 with
  | [Some a; Some b; Some c], Some t => (a + b + c = t - 3 * 2 ^ 11)%Z
  | _, _ => False
  end.
Proof. vm_compute. reflexivity. Qed.

(** The two definitions of the sample of the simulation notebook list the
    same layers, with the same SLD, thickness and roughness, in opposite
    orders. *)
Lemma sample_2_reversed : Refl1d.sample_2 = reverse Refnx.sample_1.
Proof. reflexivity. Qed.

(** ** Events in their history, and counting them *)

Section Histories.

Context {Obj Lib : Type} {E : Extern Obj Lib}.

Implicit Types (w : World Lib) (L h : list (@event Obj)).
Implicit Types (c : @call Obj).

Local Abbreviation prog A := (@M Obj Lib A).

(** *** Events in their history *)

Lemma in_history_nil (P : list (@event Obj) -> @event Obj -> Prop) h :
  in_history P h [].
Proof. intros pre ev post Heq. by destruct pre. Qed.

Lemma in_history_singleton (P : list (@event Obj) -> @event Obj -> Prop) h ev :
  P h ev -> in_history P h [ev].
Proof.
  intros HP pre ev' post Heq. destruct pre as [|? pre].
  - injection Heq as <- _. by rewrite app_nil_r.
  - injection Heq as _ Heq. by destruct pre.
Qed.

Lemma in_history_cons (P : list (@event Obj) -> @event Obj -> Prop) h ev L :
  in_history P h (ev :: L) <-> P h ev ∧ in_history P (h ++ [ev]) L.
Proof.
  split.
  - intros H. split.
    + specialize (H [] ev L eq_refl). by rewrite app_nil_r in H.
    + intros pre ev' post ->. rewrite <- (assoc_L (++)).
      by apply (H (ev :: pre) ev' post).
  - intros [H0 H] [|ev0 pre] ev' post Heq.
    + injection Heq as <- _. by rewrite app_nil_r.
    + injection Heq as <- ->. specialize (H pre ev' post eq_refl).
      by rewrite <- (assoc_L (++)) in H.
Qed.

Lemma in_history_app (P : list (@event Obj) -> @event Obj -> Prop) h L1 L2 :
  in_history P h L1 -> in_history P (h ++ L1) L2 -> in_history P h (L1 ++ L2).
Proof.
  revert h. induction L1 as [|ev L1 IH]; intros h H1 H2.
  - by rewrite app_nil_r in H2.
  - apply in_history_cons in H1 as [H0 H1]. cbn [app]. apply in_history_cons.
    split; [done|]. apply IH; [done|]. by rewrite <- (assoc_L (++)).
Qed.

Lemma hist_bind {A B} (P : list (@event Obj) -> @event Obj -> Prop) h
    (m : prog A) (k : A -> prog B) w :
  in_history P h (log (m w)) ->
  (∀ a, res (m w) = Ok a ->
        in_history P (h ++ log (m w)) (log (k a (final (m w))))) ->
  in_history P h (log (bind m k w)).
Proof.
  intros Hm Hk. unfold bind. destruct (res (m w)) as [a|e] eqn:Hres; [|done].
  cbn [log]. apply in_history_app; [done|]. by apply Hk.
Qed.

Lemma hist_external {A} (P : list (@event Obj) -> @event Obj -> Prop) h c
    (inj : A -> retval) (f : World Lib -> result A * World Lib) w :
  (∀ r, P h (Event c r)) -> in_history P h (log (external c inj f w)).
Proof.
  intros HP. unfold external. destruct (f w) as [r w']. cbn [log].
  by apply in_history_singleton.
Qed.

Lemma external_log_ok {A} c (inj : A -> retval)
    (f : World Lib -> result A * World Lib) w a :
  res (external c inj f w) = Ok a ->
  log (external c inj f w) = [returned c (inj a)].
Proof.
  unfold external. destruct (f w) as [[a'|e] w']; cbn [res log]; [|done].
  by intros [= ->].
Qed.

Lemma hist_logs {A} (P : list (@event Obj) -> @event Obj -> Prop)
    (Q : @event Obj -> Prop) h (m : prog A) w :
  logs Q m -> (∀ h ev, Q ev -> P h ev) -> in_history P h (log (m w)).
Proof.
  intros Hlogs HQP pre ev post Heq. apply HQP.
  specialize (Hlogs w). rewrite Forall_forall in Hlogs. apply Hlogs.
  rewrite Heq. apply elem_of_app. right. by left.
Qed.

(** A loop, with an invariant [J] on the elements done and the log so far. *)
Lemma hist_for {A S} (P : list (@event Obj) -> @event Obj -> Prop)
    (J : list A -> list (@event Obj) -> Prop) (all : list A)
    (body : A -> S -> prog S) :
  (∀ pre x post s w h, all = pre ++ x :: post -> J pre h ->
     in_history P h (log (body x s w)) ∧
     ∀ s', res (body x s w) = Ok s' -> J (pre ++ [x]) (h ++ log (body x s w))) ->
  ∀ xs pre s w h, all = pre ++ xs -> J pre h ->
    in_history P h (log (for_ xs body s w)).
Proof.
  intros Hstep xs. induction xs as [|x xs IH]; intros pre s w h Hall HJ.
  - apply in_history_nil.
  - cbn [for_]. destruct (Hstep pre x xs s w h Hall HJ) as [Hbody Hnext].
    apply hist_bind; [done|]. intros s' Hres.
    apply (IH (pre ++ [x])); [by rewrite <- (assoc_L (++))|by apply (Hnext s')].
Qed.

(** *** Counting calls *)

Lemma count_app (t : @event Obj -> bool) L1 L2 :
  count t (L1 ++ L2) = count t L1 + count t L2.
Proof. unfold count. by rewrite filter_app, length_app. Qed.

Lemma count_none (t : @event Obj -> bool) L :
  Forall (fun ev => t ev = false) L -> count t L = 0.
Proof.
  unfold count. induction 1 as [|ev L Hev _ IH]; [done|].
  rewrite filter_cons_False; [done|]. by rewrite Hev.
Qed.

Lemma count_passes (t : @event Obj -> bool) n pt_thick total_time ps :
  (∀ p, count t (pass_log pt_thick total_time p) = n) ->
  count t (concat (map (pass_log pt_thick total_time) ps)) = n * length ps.
Proof.
  intros Hpass. induction ps as [|p ps IH]; [cbn; lia|].
  cbn [map concat length]. rewrite count_app, Hpass, IH. lia.
Qed.

Lemma count_progress_times (t : @event Obj -> bool) i :
  (∀ line r, t (Event (Cprint line) r) = false) -> count t (progress_times i) = 0.
Proof.
  intros Ht. unfold progress_times. destruct (i mod 20 =? 0); [|done].
  apply count_none. repeat constructor. apply Ht.
Qed.

Lemma count_ratios_chunks (t : @event Obj -> bool) n pt_thick its pss :
  (∀ line r, t (Event (Cprint line) r) = false) ->
  (∀ total_time p, count t (pass_log pt_thick total_time p) = n) ->
  Forall (fun ps => length ps = 20) pss -> length its = length pss ->
  count t (concat (zip_with (time_chunk pt_thick) its pss)) = n * 20 * length pss.
Proof.
  intros Ht Hpass Hall. revert its.
  induction Hall as [|ps pss Hps _ IH]; intros [|it its] Hlen; try done.
  cbn [zip_with concat length]. rewrite count_app. unfold time_chunk at 1.
  rewrite count_app, count_progress_times, (count_passes t n), Hps by done.
  rewrite IH by (by injection Hlen). lia.
Qed.

Lemma count_ratios_log (t : @event Obj -> bool) n pt_thick pss :
  (∀ line r, t (Event (Cprint line) r) = false) ->
  (∀ total_time p, count t (pass_log pt_thick total_time p) = n) ->
  Forall (fun ps => length ps = 20) pss -> length pss = length times ->
  count t (ratios_log pt_thick pss) = n * 2000.
Proof.
  intros Ht Hpass Hall Hlen. unfold ratios_log.
  rewrite (count_ratios_chunks t n) by (by rewrite ?length_enumerate).
  rewrite Hlen, times_length. lia.
Qed.

Lemma count_cons (t : @event Obj -> bool) ev L :
  count t (ev :: L) = (if t ev then 1 else 0) + count t L.
Proof.
  unfold count. destruct (t ev) eqn:Hev.
  - by rewrite filter_cons_True.
  - rewrite filter_cons_False; [done|]. by rewrite Hev.
Qed.

Lemma enumerate_split {A} (xs : list A) pre (it : nat * A) post :
  enumerate xs = pre ++ it :: post -> it.1 = length pre ∧ it.1 < length xs.
Proof.
  intros Heq.
  assert (enumerate xs !! length pre = Some it) as Hit.
  { rewrite Heq. by apply list_lookup_middle. }
  apply enumerate_lookup in Hit as [-> Hx]. split; [done|].
  by apply lookup_lt_Some in Hx.
Qed.

Lemma not_printing (P : list (@event Obj) -> @event Obj -> Prop) :
  (∀ h ev, (∀ line, ev_call ev ≠ Cprint line) -> P h ev) ->
  ∀ h ev, is_print ev = false -> P h ev.
Proof.
  intros HP h ev Hev. apply HP. intros line Hc. unfold is_print in Hev.
  by rewrite Hc in Hev.
Qed.

End Histories.

(** One external call, then the rest with the call in the history. *)
Ltac external_step :=
  apply hist_bind;
  [ apply hist_external
  | let Hres := fresh "Hres" in
    intros ? Hres; rewrite (external_log_ok _ _ _ _ _ Hres); clear Hres ].

(** ** The loops, index by index *)

Section Indexed.

Context {Obj Lib : Type} {E : Extern Obj Lib}.

Implicit Types (w : World Lib) (L h : list (@event Obj)).
Implicit Types (c : @call Obj).

Local Abbreviation prog A := (@M Obj Lib A).

(** The element number [k] among the events passing [t], where it stands
    in the log. *)
Lemma filter_lookup_split (t : @event Obj -> bool) L k ev :
  filter (fun ev => t ev = true) L !! k = Some ev ->
  ∃ before after, L = before ++ ev :: after ∧ count t before = k ∧ t ev = true.
Proof.
  revert k. induction L as [|x L IH]; intros k Hk; [done|].
  destruct (t x) eqn:Hx.
  - rewrite filter_cons_True in Hk by done. destruct k as [|k].
    + injection Hk as <-. by exists [], L.
    + destruct (IH k Hk) as (before & after & -> & Hcount & Hev).
      exists (x :: before), after. rewrite count_cons, Hx, Hcount. done.
  - rewrite filter_cons_False in Hk by (by rewrite Hx).
    destruct (IH k Hk) as (before & after & -> & Hcount & Hev).
    exists (x :: before), after. rewrite count_cons, Hx, Hcount. done.
Qed.

Lemma progress_then {B} b line (k : unit -> prog B) w :
  res (bind (when b (print line)) k w) = res (k tt w) ∧
  log (bind (when b (print line)) k w)
    = (if b then [returned (Cprint line) Rnone] else []) ++ log (k tt w).
Proof. by destruct b. Qed.

(** *** The plan of each simulation *)

Lemma simulate_ratio_plan pt_thick total_time temp :
  logs (plan_of_time total_time) (simulate_ratio pt_thick total_time temp).
Proof.
  unfold simulate_ratio.
  repeat first
    [ apply logs_ret
    | apply logs_bind; [|intros ?]
    | match goal with |- logs _ (let (_, _) := ?a in _) => destruct a end
    | apply logs_external; intros r; unfold plan_of_time; cbn [ev_call];
      intros ????????? Hcall; try discriminate Hcall;
      by injection Hcall as _ <- _ _ _ _ _ _ _ ].
Qed.

Lemma simulate_ratio_plan_at pt_thick total_time temp w h i j :
  count is_simulate h = 20 * i + j -> j < 20 -> times !! i = Some total_time ->
  in_history plans_by_index h (log (simulate_ratio pt_thick total_time temp w)).
Proof.
  intros Hcount Hj Hi.
  unfold simulate_ratio, SampleYIG, set_value, using_conditions,
    simulate_magnetic, _logl.
  external_step; [by intros r ????????? Hc|].
  external_step; [by intros r ????????? Hc|].
  external_step; [by intros r ????????? Hc|].
  external_step.
  { intros r ????????? Hc. injection Hc as _ <- _ _ _ _ _ _ _.
    exists i, j, total_time. split; [|done].
    rewrite !count_app, !count_cons, Hcount. cbn. lia. }
  destruct a2 as [models datasets].
  external_step; [by intros r ????????? Hc|].
  external_step; [by intros r ????????? Hc|].
  external_step; [by intros r ????????? Hc|].
  apply in_history_nil.
Qed.

Lemma count_pass_simulate pt_thick total_time p :
  count is_simulate (pass_log pt_thick total_time p) = 1.
Proof. done. Qed.

Lemma calc_log_ratios_plans_at pt_thick w :
  in_history plans_by_index [] (log (calc_log_ratios pt_thick w)).
Proof.
  unfold calc_log_ratios.
  apply hist_bind; [|intros; apply in_history_nil].
  apply (hist_for plans_by_index
           (fun pre h => count is_simulate h = 20 * length pre) (enumerate times))
    with (pre := []); [|done..].
  intros pre [i total_time] post ratios w0 h Hall HJ.
  assert (enumerate times !! length pre = Some (i, total_time)) as Hit.
  { rewrite Hall. by apply list_lookup_middle. }
  apply enumerate_lookup in Hit as [Hi Ht]. cbn [fst snd] in Hi, Ht. subst i.
  split.
  - apply hist_bind.
    { destruct (_ =? 0); [|apply in_history_nil].
      apply hist_external. by intros r ????????? Hc. }
    intros u Hprint. apply hist_bind; [|intros; apply in_history_nil].
    apply (hist_for plans_by_index
             (fun made h' => count is_simulate h' = 20 * length pre + length made)
             (range 20)) with (pre := []).
    + intros made x rest temp w1 h1 Hrange Hmade.
      assert (length made < 20) as Hlt.
      { apply (f_equal length) in Hrange. unfold range in Hrange.
        rewrite length_seq, length_app in Hrange. cbn in Hrange. lia. }
      split; [by apply (simulate_ratio_plan_at _ _ _ _ _ (length pre) (length made))|].
      intros temp' Hres.
      match goal with |- context [log ?o] => pose proof (out_eta o) as Hrun end.
      rewrite Hres in Hrun.
      apply simulate_ratio_run in Hrun as (p & _ & _ & _ & -> & _).
      rewrite count_app, Hmade, count_pass_simulate, length_app. cbn. lia.
    + done.
    + rewrite count_app, HJ.
      assert (count is_simulate (log (when (length pre mod 20 =? 0)
                (print (progress_line (length pre) (length times))) w0)) = 0) as ->.
      { by destruct (_ =? 0). }
      cbn. lia.
  - intros ratios' Hres.
    match goal with |- context [log ?o] => pose proof (out_eta o) as Hrun end.
    rewrite Hres in Hrun.
    apply bind_ok in Hrun as (u & w1 & L1 & L2 & Hprint & Hrest & ->).
    apply bind_ok in Hrest as (temp & w2 & L3 & L4 & Hinner & Hret & ->).
    apply ret_ok in Hret as (_ & _ & ->).
    apply inner_loop_run in Hinner as (ps & Hps & _ & ->).
    rewrite !count_app, HJ, (count_passes is_simulate 1), Hps, length_app by done.
    assert (count is_simulate L1 = 0) as ->; [|cbn; lia].
    apply when_ok in Hprint. destruct (_ =? 0); [|by destruct Hprint as [_ ->]].
    by apply print_ok in Hprint as [_ ->].
Qed.

(** *** The loops cut at their indices *)

(** The log of a loop, cut at the iterations entered: each chunk is the
    log of the body at its element, and the body returned at every index
    but, possibly, the last one entered. *)
Lemma for_chunks_ended {A St} (xs : list A) (body : A -> St -> prog St) s w :
  ∃ chunks,
    log (for_ xs body s w) = concat chunks ∧
    length chunks ≤ length xs ∧
    (∀ s', res (for_ xs body s w) = Ok s' -> length chunks = length xs) ∧
    ∀ i ch, chunks !! i = Some ch ->
      ∃ x s0 w0, xs !! i = Some x ∧ ch = log (body x s0 w0) ∧
        (S i < length chunks ∨ (∃ s', res (for_ xs body s w) = Ok s') ->
         ∃ s1, res (body x s0 w0) = Ok s1).
Proof.
  revert s w. induction xs as [|x xs IH]; intros s w.
  - exists []. by repeat split.
  - cbn [for_]. unfold bind. destruct (res (body x s w)) as [s1|e] eqn:Hres.
    + destruct (IH s1 (final (body x s w))) as (chunks & Hlog & Hle & Hok & Hat).
      exists (log (body x s w) :: chunks). cbn [log res concat length].
      rewrite Hlog. split; [done|]. split; [lia|]. split.
      * intros s' Hs'. by rewrite (Hok s').
      * intros [|i] ch Hch.
        -- simplify_eq/=. exists x, s, w. split; [done|]. split; [done|]. eauto.
        -- destruct (Hat i ch Hch) as (x' & s0 & w0 & Hx' & -> & Hdone).
           exists x', s0, w0. split; [done|]. split; [done|].
           intros [Hlt|Hret]; apply Hdone; [left; lia|by right].
    + exists [log (body x s w)]. cbn [log res concat length].
      rewrite app_nil_r. split; [done|]. split; [lia|]. split; [done|].
      intros [|i] ch Hch; [|done]. simplify_eq/=. exists x, s, w.
      split; [done|]. split; [done|]. intros [Hlt|[s' Hs']]; [lia|done].
Qed.

(** Chunks that all start with a known prefix. *)
Lemma chunks_split_at (pref : nat -> list (@event Obj))
    (Q : nat -> list (@event Obj) -> Prop) (chunks : list (list (@event Obj))) :
  (∀ i ch, chunks !! i = Some ch -> ∃ work, ch = pref i ++ work ∧ Q i work) ->
  ∃ works, chunks = imap (fun i work => pref i ++ work) works ∧
           length works = length chunks ∧
           ∀ i work, works !! i = Some work -> Q i work.
Proof.
  intros Hat. exists (imap (fun i ch => drop (length (pref i)) ch) chunks).
  split; [|split].
  - apply list_eq. intros i. rewrite !list_lookup_imap.
    destruct (chunks !! i) as [ch|] eqn:Hch; [|done]. simpl.
    destruct (Hat i ch Hch) as (work & -> & _). by rewrite drop_app_length.
  - apply length_imap.
  - intros i work. rewrite list_lookup_imap.
    destruct (chunks !! i) as [ch|] eqn:Hch; [|done]. simpl. intros [= <-].
    destruct (Hat i ch Hch) as (work & -> & HQ). by rewrite drop_app_length.
Qed.

Lemma calc_log_ratios_chunks pt_thick w :
  ∃ works : list (list (@event Obj)),
    log (calc_log_ratios pt_thick w)
      = concat (imap (fun i work =>
          (if i mod 20 =? 0
           then [returned (Cprint (progress_line i (length times))) Rnone]
           else []) ++ work) works) ∧
    length works ≤ length times ∧
    (∀ ratios, res (calc_log_ratios pt_thick w) = Ok ratios ->
               length works = length times) ∧
    Forall (Forall (fun ev => is_print ev = false)) works ∧
    ∀ i work, works !! i = Some work ->
      ∃ total_time,
        times !! i = Some total_time ∧
        Forall (plan_of_time total_time) work ∧
        (S i < length works ∨ (∃ ratios, res (calc_log_ratios pt_thick w) = Ok ratios) ->
         ∃ ps, length ps = 20 ∧
               work = concat (map (pass_log pt_thick total_time) ps)).
Proof.
  unfold calc_log_ratios.
  match goal with |- context [bind ?m _ w] => set (loop := m) end.
  destruct (log_bind_ret loop (fun ratios => ratios) w) as [-> Hok].
  destruct (for_chunks_ended (enumerate times)
              (fun '(i, total_time) ratios =>
                 bind (when (i mod 20 =? 0) (print (progress_line i (length times))))
                   (fun _ =>
                 bind (for_ (range 20)
                         (fun _ temp => simulate_ratio pt_thick total_time temp) [])
                   (fun temp => ret (ratios ++ [np_median temp]))))
              [] w) as (chunks & Hlog & Hle & Hall & Hat).
  fold loop in Hlog, Hall, Hat. rewrite length_enumerate in Hle, Hall.
  destruct (chunks_split_at
              (fun i => if i mod 20 =? 0
                        then [returned (Cprint (progress_line i (length times))) Rnone]
                        else [])
              (fun i work =>
                 Forall (fun ev => is_print ev = false) work ∧
                 ∃ total_time,
                   times !! i = Some total_time ∧
                   Forall (plan_of_time total_time) work ∧
                   (S i < length chunks ∨ (∃ ratios, res (loop w) = Ok ratios) ->
                    ∃ ps, length ps = 20 ∧
                          work = concat (map (pass_log pt_thick total_time) ps)))
              chunks) as (works & Hchunks & Hlen & HQ).
  { intros i ch Hch.
    destruct (Hat i ch Hch) as ([i' total_time] & ratios & w0 & Hit & -> & Hdone).
    apply enumerate_lookup in Hit as [Hi Ht]. cbn [fst snd] in Hi, Ht. subst i'.
    match goal with |- context [bind (when ?b (print ?line)) ?k w0] =>
      destruct (progress_then b line k w0) as [Hres Hwork]
    end.
    eexists. split; [exact Hwork|]. cbv beta.
    match goal with |- context [bind ?m _ w0] => set (inner := m) in * end.
    destruct (log_bind_ret inner (fun temp => ratios ++ [np_median temp]) w0)
      as [-> Hinner].
    split.
    { apply logs_for. intros. apply simulate_ratio_prints_nothing. }
    exists total_time. split; [done|]. split.
    { apply logs_for. intros. apply simulate_ratio_plan. }
    intros Hcomplete. destruct (Hdone Hcomplete) as [ratios' Hret].
    rewrite Hres in Hret. destruct (Hinner ratios' Hret) as [temp Htemp].
    pose proof (out_eta (inner w0)) as Hrun. rewrite Htemp in Hrun.
    apply inner_loop_run in Hrun as (ps & Hps & _ & HL). by exists ps. }
  exists works. split; [by rewrite Hlog, Hchunks|]. rewrite Hlen.
  split; [done|]. split; [|split].
  - intros ratios [ratios' Hres]%Hok. eauto.
  - apply Forall_lookup. intros i work Hwork. by destruct (HQ i work Hwork).
  - intros i work Hwork.
    destruct (HQ i work Hwork) as (_ & total_time & Ht & Hplans & Hdone).
    exists total_time. split; [done|]. split; [done|].
    intros [Hlt|[ratios [ratios' Hres]%Hok]]; apply Hdone; eauto.
Qed.

Lemma fisher_sweep_chunks sample w :
  ∃ works : list (list (@event Obj)),
    log (fisher_sweep sample w)
      = concat (imap (fun i work =>
          (if i mod 5 =? 0
           then [returned (Cprint (progress_line (i * length pt_thick_range)
                   (length pt_thick_range * length yig_thick_range))) Rnone]
           else []) ++ work) works) ∧
    length works ≤ length yig_thick_range ∧
    (∀ xyi, res (fisher_sweep sample w) = Ok xyi ->
            length works = length yig_thick_range) ∧
    Forall (Forall (fun ev => is_print ev = false)) works ∧
    ∀ i work, works !! i = Some work ->
      ∃ yig_thick,
        yig_thick_range !! i = Some yig_thick ∧
        Forall (row_call sample yig_thick) work ∧
        (S i < length works ∨ (∃ xyi, res (fisher_sweep sample w) = Ok xyi) ->
         ∃ gs, length gs = length pt_thick_range ∧
               work = zip_with (info_event sample) (grid_row yig_thick) gs).
Proof.
  unfold fisher_sweep. cbv zeta.
  match goal with |- context [log (?m w)] => set (loop := m) end.
  destruct (for_chunks_ended (enumerate yig_thick_range)
              (fun '(i, yig_thick) acc =>
                 bind (when (i mod 5 =? 0)
                         (print (progress_line (i * length pt_thick_range)
                            (length pt_thick_range * length yig_thick_range))))
                   (fun _ =>
                 for_ pt_thick_range (fun pt_thick '(x, y, infos) =>
                   bind (underlayer_info sample angle_times_fisher yig_thick pt_thick)
                     (fun g =>
                   bind (of_option IndexError (Np.item00 g)) (fun g00 =>
                   ret (x ++ [yig_thick], y ++ [pt_thick], infos ++ [g00])))) acc))
              ([], [], []) w) as (chunks & Hlog & Hle & Hall & Hat).
  fold loop in Hlog, Hall, Hat. rewrite length_enumerate in Hle, Hall.
  destruct (chunks_split_at
              (fun i => if i mod 5 =? 0
                        then [returned (Cprint (progress_line (i * length pt_thick_range)
                                (length pt_thick_range * length yig_thick_range))) Rnone]
                        else [])
              (fun i work =>
                 Forall (fun ev => is_print ev = false) work ∧
                 ∃ yig_thick,
                   yig_thick_range !! i = Some yig_thick ∧
                   Forall (row_call sample yig_thick) work ∧
                   (S i < length chunks ∨ (∃ xyi, res (loop w) = Ok xyi) ->
                    ∃ gs, length gs = length pt_thick_range ∧
                          work = zip_with (info_event sample) (grid_row yig_thick) gs))
              chunks) as (works & Hchunks & Hlen & HQ).
  { intros i ch Hch.
    destruct (Hat i ch Hch) as ([i' yig_thick] & [[x0 y0] infos0] & w0 & Hit & -> & Hdone).
    apply enumerate_lookup in Hit as [Hi Hy]. cbn [fst snd] in Hi, Hy. subst i'.
    match goal with |- context [bind (when ?b (print ?line)) ?k w0] =>
      destruct (progress_then b line k w0) as [Hres Hwork]
    end.
    eexists. split; [exact Hwork|]. cbv beta.
    split.
    { apply logs_for. intros pt [[x y] infos] _.
      apply logs_bind; [by apply logs_external|]. intros g.
      apply logs_bind; [apply logs_of_option|]. intros. apply logs_ret. }
    exists yig_thick. split; [done|]. split.
    { apply logs_for. intros pt [[x y] infos] Hpt.
      apply logs_bind; [apply logs_external; intros r; by exists pt|]. intros g.
      apply logs_bind; [apply logs_of_option|]. intros. apply logs_ret. }
    intros Hcomplete. destruct (Hdone Hcomplete) as [acc Hret].
    rewrite Hres in Hret.
    match type of Hret with res ?o = _ => pose proof (out_eta o) as Hrun end.
    rewrite Hret in Hrun.
    apply sweep_row_run in Hrun as (gs & vs & _ & Hgs & _ & HL). by exists gs. }
  exists works. split; [by rewrite Hlog, Hchunks|]. rewrite Hlen.
  split; [done|]. split; [done|]. split.
  - apply Forall_lookup. intros i work Hwork. by destruct (HQ i work Hwork).
  - intros i work Hwork.
    destruct (HQ i work Hwork) as (_ & yig_thick & Hy & Hcalls & Hdone).
    by exists yig_thick.
Qed.

End Indexed.

(** ** The statements of the specification *)

Section Claims.

Context {Obj Lib : Type} {E : Extern Obj Lib}.

(** C1. For every Pt thickness, [calc_log_ratios] returns whenever the
    library raises nothing, and a run that returns gives one value per
    entry of [times], of which there are 100, in order: the entry at index
    [i] is the median of the ratios of the 20 passes made with [times[i]],
    each ratio being [logl_1 - logl_2], where [logl_1] is the likelihood
    obtained with the moment at 0.01638 and [logl_2] the one obtained after
    the moment was set to 0. *)
Theorem calc_log_ratios_medians (pt_thick : float) (w : World Lib) :
  (cooperative -> ∃ ratios, res (calc_log_ratios pt_thick w) = Ok ratios) ∧
  ∀ ratios, res (calc_log_ratios pt_thick w) = Ok ratios ->
    length times = 100 ∧
    length ratios = length times ∧
    ∃ pss : list (list pass),
      log (calc_log_ratios pt_thick w) = ratios_log pt_thick pss ∧
      ∀ i total_time, times !! i = Some total_time ->
        ∃ ps, pss !! i = Some ps ∧ length ps = 20 ∧
              ratios !! i = Some (np_median (map pass_ratio ps)).
Proof.
  split.
  { intros Hco. destruct (calc_log_ratios_returns pt_thick Hco w) as (ratios & Hres & _).
    by exists ratios. }
  intros ratios Hres. split; [apply times_length|].
  pose proof (out_eta (calc_log_ratios pt_thick w)) as Hrun. rewrite Hres in Hrun.
  apply calc_log_ratios_run in Hrun as (pss & Hlen & Hall & -> & HL).
  rewrite length_map. split; [done|]. exists pss. split; [done|].
  intros i total_time Hi.
  destruct (lookup_lt_is_Some_2 pss i) as [ps Hps].
  { rewrite Hlen. by apply lookup_lt_Some in Hi. }
  exists ps. split; [done|]. split.
  - by eapply (Forall_lookup_1 _ _ _ _ Hall).
  - by rewrite list_lookup_fmap, Hps.
Qed.

(** C2. In every pass of the inner loop that completes: a new sample is
    built and its moment set to 0.01638 before the one simulation of the
    pass; both likelihoods are taken on the models that simulation returned,
    the second after the moment of the sample was set to 0; the value
    appended is their difference.  When [_logl] only reads the world, and
    reads of the parameters only those in the footprint of the models, the
    two likelihoods differ only if the moment of the sample is in that
    footprint. *)
Theorem simulate_ratio_same_models (pt_thick total_time : float) temp
    (w : World Lib) temp' w' L :
  simulate_ratio pt_thick total_time temp w = Out (Ok temp') w' L ->
  ∃ p : pass,
    L = [ returned CSampleYIG (Robj (pass_sample p));
          returned (Cset_value (pt_mag (pass_sample p)) pt_moment) Rnone;
          returned (Cusing_conditions (pass_sample p) pt_thick)
                   (Robj (pass_structure p));
          returned (Csimulate_magnetic (pass_structure p) (split_times total_time)
                      1 bkg_magnetic 2 true false false true)
                   (Rpair (pass_models p) (pass_datasets p));
          returned (Clogl (pass_models p)) (Rfloat (logl_1 p));
          returned (Cset_value (pt_mag (pass_sample p)) 0) Rnone;
          returned (Clogl (pass_models p)) (Rfloat (logl_2 p)) ] ∧
    length (filter (fun ev => is_simulate ev = true) L) = 1 ∧
    temp' = temp ++ [(logl_1 p - logl_2 p)%float] ∧
    ∀ footprint : Obj -> gset nat,
      logl_reads footprint ->
      logl_1 p ≠ logl_2 p ->
      pt_mag (pass_sample p) ∈ footprint (pass_models p).
Proof.
  intros Hrun.
  apply simulate_ratio_run in Hrun as (p & w1 & w2 & -> & -> & Hl1 & Hl2).
  exists p. split; [done|]. split; [done|]. split; [done|].
  intros footprint [Hro Hfp] Hne.
  destruct (decide (pt_mag (pass_sample p) ∈ footprint (pass_models p)))
    as [|Hout]; [done|].
  exfalso. apply Hne.
  pose proof (Hro (pass_models p) w1) as Hw. rewrite Hl1 in Hw. simpl in Hw. subst w2.
  pose proof (Hfp (pass_models p) w1 (assigned (pt_mag (pass_sample p)) 0 w1)) as Heq.
  rewrite Hl1, Hl2 in Heq. simpl in Heq.
  assert (Ok (logl_1 p) = Ok (logl_2 p)) as [= ->]; [|done].
  apply Heq; [done..|]. intros q Hq. rewrite lookup_insert_ne; [done|].
  by intros <-.
Qed.

(** C3, amended.  In any run of [calc_log_ratios], returning or not, the
    simulation made after [20 * i + j] earlier ones ([j < 20]) is
    simulation [j] of time index [i], and the plan it passes to
    [simulate_magnetic] is the one made from [total_time = times[i]], the
    time of its own iteration: it keeps the angles 0.5, 1.0, 2.0 and the
    100 points of [angle_splits], and each time is the binary64 product of
    the split and [total_time].  The splits sum to 1 in binary64; the
    per-angle times sum to [total_time] up to one rounding: Python's [sum]
    of them is [total_time] or the float just below it.  In a run that
    returns, every [total_time] of [times] is served: for each index [i]
    and each [j < 20], simulation number [20 * i + j] is made, with the
    plan made from [times[i]]. *)
Theorem split_times_plan (pt_thick : float) (w : World Lib) :
  (∀ before ev after structure angle_times scale bkg dq pp pm mp mm,
     log (calc_log_ratios pt_thick w) = before ++ ev :: after ->
     ev_call ev = Csimulate_magnetic structure angle_times scale bkg dq pp pm mp mm ->
     ∃ i j total_time,
       count is_simulate before = 20 * i + j ∧ j < 20 ∧
       times !! i = Some total_time ∧
       angle_times =
         [ (0.5, 100%Z, 1 / 7 * total_time);
           (1.0, 100%Z, 2 / 7 * total_time);
           (2.0, 100%Z, 4 / 7 * total_time) ]%float ∧
       map fst angle_times = map fst angle_splits ∧
       map snd angle_times = map (fun a => (a.2 * total_time)%float) angle_splits ∧
       py_sum (map snd angle_splits) = 1%float ∧
       (py_sum (map snd angle_times) = total_time ∨
        py_sum (map snd angle_times) = next_down total_time)) ∧
  (∀ ratios, res (calc_log_ratios pt_thick w) = Ok ratios ->
     ∀ i total_time j, times !! i = Some total_time -> j < 20 ->
       ∃ ev structure scale bkg dq pp pm mp mm,
         filter (fun ev => is_simulate ev = true) (log (calc_log_ratios pt_thick w))
           !! (20 * i + j) = Some ev ∧
         ev_call ev =
           Csimulate_magnetic structure
             [ (0.5, 100%Z, 1 / 7 * total_time);
               (1.0, 100%Z, 2 / 7 * total_time);
               (2.0, 100%Z, 4 / 7 * total_time) ]%float
             scale bkg dq pp pm mp mm).
Proof.
  split.
  - intros before ev after structure angle_times scale bkg dq pp pm mp mm Hlog Hcall.
    destruct (calc_log_ratios_plans_at pt_thick w before ev after Hlog
                _ _ _ _ _ _ _ _ _ Hcall)
      as (i & j & total_time & Hcount & Hj & Ht & ->).
    exists i, j, total_time. split; [done|]. split; [done|]. split; [done|].
    split; [apply split_times_shape|].
    split; [done|]. split; [done|]. split; [apply angle_splits_sum|].
    pose proof split_times_sum_rounded as Hsum. rewrite Forall_forall in Hsum.
    apply Hsum. by eapply list_elem_of_lookup_2.
  - intros ratios Hres i total_time j Ht Hj.
    assert (length (filter (fun ev => is_simulate ev = true)
                      (log (calc_log_ratios pt_thick w))) = 2000) as Hall.
    { pose proof (out_eta (calc_log_ratios pt_thick w)) as Hrun. rewrite Hres in Hrun.
      apply calc_log_ratios_run in Hrun as (pss & Hlen & Hpss & _ & ->).
      by apply (count_ratios_log is_simulate 1). }
    pose proof (lookup_lt_Some _ _ _ Ht) as Hi. rewrite times_length in Hi.
    destruct (lookup_lt_is_Some_2
                (filter (fun ev => is_simulate ev = true)
                   (log (calc_log_ratios pt_thick w))) (20 * i + j)) as [ev Hev];
      [lia|].
    destruct (filter_lookup_split _ _ _ _ Hev)
      as (before & after & Hlog & Hcount & Hsim).
    unfold is_simulate in Hsim.
    destruct (ev_call ev) eqn:Hcall; try discriminate Hsim.
    destruct (calc_log_ratios_plans_at pt_thick w before ev after Hlog
                _ _ _ _ _ _ _ _ _ Hcall)
      as (i' & j' & total_time' & Hcount' & Hj' & Ht' & Hplan).
    cbn [app] in Hcount'. rewrite Hcount in Hcount'.
    assert (i' = i) as -> by lia. simplify_eq.
    rewrite split_times_shape in Hcall.
    exists ev. do 8 eexists. split; [exact Hev|exact Hcall].
Qed.

(** C4. The thickness sweep returns whenever the library raises nothing
    and its matrices have an entry [0, 0].  A sweep that returns has called
    [underlayer_info] once for every pair of the 60-element YIG grid and
    the 50-element Pt grid, in row-major order (YIG outer, Pt inner), with
    the plan [angle_times] of the cell; [x] and [y] hold the YIG and Pt
    thickness of each pair, and [infos] the entry [g[0, 0]] of each matrix
    returned, in the same order.  The three lists have length
    [len(yig_thick_range) * len(pt_thick_range) = 3000]. *)
Theorem fisher_sweep_row_major (sample : Obj) (w : World Lib) :
  (cooperative -> ∃ xyi, res (fisher_sweep sample w) = Ok xyi) ∧
  ∀ x y infos, res (fisher_sweep sample w) = Ok (x, y, infos) ->
    length yig_thick_range = 60 ∧
    length pt_thick_range = 50 ∧
    grid_pairs =
      (yig_thick ← yig_thick_range; pt_thick ← pt_thick_range;
       [(yig_thick, pt_thick)]) ∧
    x = map fst grid_pairs ∧
    y = map snd grid_pairs ∧
    (∃ gs : list (list (list float)),
       calls (log (fisher_sweep sample w))
         = zip_with (fun yp g => returned
                       (Cunderlayer_info sample angle_times_fisher yp.1 yp.2)
                       (Rmatrix g))
                    grid_pairs gs ∧
       length gs = length grid_pairs ∧
       Forall2 (fun g v => Np.item00 g = Some v) gs infos) ∧
    length x = length yig_thick_range * length pt_thick_range ∧
    length y = length yig_thick_range * length pt_thick_range ∧
    length infos = length yig_thick_range * length pt_thick_range ∧
    length yig_thick_range * length pt_thick_range = 3000.
Proof.
  split.
  { intros Hco. destruct (fisher_sweep_returns sample Hco w) as (xyi & Hres & _).
    by exists xyi. }
  intros x y infos Hres.
  pose proof (out_eta (fisher_sweep sample w)) as Hrun. rewrite Hres in Hrun.
  apply fisher_sweep_run in Hrun as (gs & Hgv & Hlen & -> & -> & HL).
  rewrite !length_map, yig_thick_range_length, pt_thick_range_length.
  pose proof grid_pairs_length as Hn.
  split; [done|]. split; [done|]. split; [apply grid_pairs_row_major|].
  split; [done|]. split; [done|]. split; [by exists gs|].
  apply Forall2_length in Hgv. repeat split; lia.
Qed.


(** C8. Both sweeps run one index after the other, and in every run,
    complete or not, the log is made of the indices entered, in order.  At
    time index [i], [calc_log_ratios] first prints ['>>> i/len(times)'] if
    [i % 20 == 0] and nothing otherwise, then does the work of index [i]:
    that work prints nothing, every simulation in it is given the plan
    made from [times[i]], and at every index but a last one cut short by an
    exception it is exactly 20 passes for [times[i]].  At YIG index [i],
    the thickness sweep first prints ['>>> i*len(pt_thick_range)/n'] if
    [i % 5 == 0] and nothing otherwise, then does the work of index [i]:
    that work prints nothing, is made of [underlayer_info] calls at
    [yig_thick_range[i]], and at every index but a last one cut short it is
    exactly one call for each Pt thickness, in order. *)
Theorem progress_lines :
  (∀ pt_thick (w : World Lib), ∃ works : list (list event),
     log (calc_log_ratios pt_thick w)
       = concat (imap (fun i work =>
           (if i mod 20 =? 0
            then [returned (Cprint (progress_line i (length times))) Rnone]
            else []) ++ work) works) ∧
     length works ≤ length times ∧
     (∀ ratios, res (calc_log_ratios pt_thick w) = Ok ratios ->
                length works = length times) ∧
     Forall (Forall (fun ev => is_print ev = false)) works ∧
     ∀ i work, works !! i = Some work ->
       ∃ total_time,
         times !! i = Some total_time ∧
         Forall (plan_of_time total_time) work ∧
         (S i < length works ∨ (∃ ratios, res (calc_log_ratios pt_thick w) = Ok ratios) ->
          ∃ ps, length ps = 20 ∧
                work = concat (map (pass_log pt_thick total_time) ps))) ∧
  (∀ sample (w : World Lib), ∃ works : list (list event),
     log (fisher_sweep sample w)
       = concat (imap (fun i work =>
           (if i mod 5 =? 0
            then [returned (Cprint (progress_line (i * length pt_thick_range)
                    (length pt_thick_range * length yig_thick_range))) Rnone]
            else []) ++ work) works) ∧
     length works ≤ length yig_thick_range ∧
     (∀ xyi, res (fisher_sweep sample w) = Ok xyi ->
             length works = length yig_thick_range) ∧
     Forall (Forall (fun ev => is_print ev = false)) works ∧
     ∀ i work, works !! i = Some work ->
       ∃ yig_thick,
         yig_thick_range !! i = Some yig_thick ∧
         Forall (row_call sample yig_thick) work ∧
         (S i < length works ∨ (∃ xyi, res (fisher_sweep sample w) = Ok xyi) ->
          ∃ gs, length gs = length pt_thick_range ∧
                work = zip_with (info_event sample) (grid_row yig_thick) gs)) ∧
  progress_line 20 (length times) = ">>> 20/100"%string ∧
  progress_line (5 * length pt_thick_range)
    (length pt_thick_range * length yig_thick_range) = ">>> 250/3000"%string.
Proof.
  split; [|split; [|split; vm_compute; reflexivity]].
  - intros pt_thick w. apply calc_log_ratios_chunks.
  - intros sample w. apply fisher_sweep_chunks.
Qed.

(** C6. [plot_reflectivity(model, data)] takes columns 0, 1, 2 and 3 of
    [data] as [q], [r], [dr] and [counts]; on a data set with these four
    columns, when the run returns, it has asked [reflectivity(q, model)]
    for the model curve, plotted that curve and the simulated [r] with error
    bars [dr] against [q], and set the y-scale to ['log'].  It writes
    neither to [data] nor to anything else: whatever the external calls
    leave as it was is, after the run, as it was. *)
Theorem plot_reflectivity_draws {X} (obs : World Lib -> X)
    (model : Obj) (data : nat) (w : World Lib) a :
  arrays w !! data = Some a ->
  untouched_by_plotting (fun w => arrays w !! data) ->
  untouched_by_plotting obs ->
  res (plot_reflectivity model data w) = Ok tt ->
  ∃ q r dr counts r_model fig ax,
    Np.column 0 a = Some q ∧ Np.column 1 a = Some r ∧
    Np.column 2 a = Some dr ∧ Np.column 3 a = Some counts ∧
    log (plot_reflectivity model data w) =
      [ returned (Creflectivity q model) (Rarray r_model);
        returned (Cfigure (9, 7)%float) (Robj fig);
        returned (Cadd_subplot fig 111) (Robj ax);
        returned (Caxes ax (Aplot q r_model
          [("color", VStr "red"); ("zorder", VInt 20); ("label", VStr "Model")]))
          Rnone;
        returned (Caxes ax (Aerrorbar q r dr
          [("color", VStr "black"); ("marker", VStr "o"); ("ms", VInt 3);
           ("lw", VInt 0); ("elinewidth", VInt 1); ("capsize", VFloat 1.5);
           ("label", VStr "Simulated")])) Rnone;
        returned (Caxes ax (Aset_xlabel "$\mathregular{Q\ (Å^{-1})}$" bold11)) Rnone;
        returned (Caxes ax (Aset_ylabel "Reflectivity (arb.)" bold11)) Rnone;
        returned (Caxes ax (Aset_yscale "log")) Rnone;
        returned (Caxes ax (Aset_xlim 0 xlim_hi)) Rnone;
        returned (Caxes ax Alegend) Rnone;
        returned Cshow Rnone ] ∧
    arrays (final (plot_reflectivity model data w)) !! data = Some a ∧
    obs (final (plot_reflectivity model data w)) = obs w.
Proof.
  intros Ha Hdata Hobs Hres.
  pose proof (out_eta (plot_reflectivity model data w)) as Hrun. rewrite Hres in Hrun.
  destruct (plot_reflectivity_run _ _ _ _ _ _ _ Ha Hdata Hrun)
    as (q & r & dr & counts & r_model & fig & ax & Hq & Hr & Hdr & Hc & HL).
  exists q, r, dr, counts, r_model, fig, ax.
  repeat (split; [done|]). split.
  - rewrite <- Ha. by apply (keeps_plot_reflectivity (fun w => arrays w !! data)).
  - by apply keeps_plot_reflectivity.
Qed.

(** C7. Neither function handles anything: in any run of
    [calc_log_ratios] or of [plot_reflectivity], an external call that
    raised is the last call made, and its exception is the outcome of the
    run; in particular no list of ratios is returned. *)
Theorem exceptions_propagate :
  (∀ pt_thick (w : World Lib) ev e,
     ev ∈ log (calc_log_ratios pt_thick w) -> raised ev = Some e ->
     res (calc_log_ratios pt_thick w) = Raise e ∧
     (∀ ratios, res (calc_log_ratios pt_thick w) ≠ Ok ratios) ∧
     ∃ before, log (calc_log_ratios pt_thick w) = before ++ [ev]) ∧
  (∀ model data (w : World Lib) ev e,
     ev ∈ log (plot_reflectivity model data w) -> raised ev = Some e ->
     res (plot_reflectivity model data w) = Raise e ∧
     ∃ before, log (plot_reflectivity model data w) = before ++ [ev]).
Proof.
  split.
  - intros pt_thick w ev e Hin Hev.
    destruct (propagated_raised _ ev e (propagates_calc_log_ratios pt_thick w) Hin Hev)
      as [Hres Hlast].
    split; [done|]. split; [|done]. intros ratios. by rewrite Hres.
  - intros model data w ev e Hin Hev.
    exact (propagated_raised _ ev e (propagates_plot_reflectivity model data w) Hin Hev).
Qed.


End Claims.

(** ** Further properties of the cells *)

Section More.

Context {Obj Lib : Type} {E : Extern Obj Lib}.

Implicit Types (w : World Lib) (L h : list (@event Obj)).
Implicit Types (c : @call Obj).

Local Abbreviation prog A := (@M Obj Lib A).

(** *** Assignments made by [calc_log_ratios] *)

Lemma latest_sample_new h (sample : Obj) :
  latest_sample (h ++ [returned CSampleYIG (Robj sample)]) = Some sample.
Proof. unfold latest_sample. rewrite omap_app. apply last_snoc. Qed.

Lemma latest_sample_other h ev :
  sample_of ev = None -> latest_sample (h ++ [ev]) = latest_sample h.
Proof.
  intros Hev. unfold latest_sample. rewrite omap_app. cbn [omap list_omap].
  rewrite Hev. by rewrite app_nil_r.
Qed.

(** One more call in the history, which is not a [SampleYIG()]. *)
Ltac keep_latest Hl :=
  match goal with
  | |- in_history _ (?h ++ [?ev]) _ =>
      let Hl' := fresh in
      assert (latest_sample (h ++ [ev]) = latest_sample h) as Hl'
        by (by apply latest_sample_other);
      rewrite Hl in Hl'; clear Hl; rename Hl' into Hl
  end.

Lemma simulate_ratio_assigns pt_thick total_time temp w h :
  in_history assigns_own_sample h (log (simulate_ratio pt_thick total_time temp w)).
Proof.
  unfold simulate_ratio, SampleYIG, set_value, using_conditions,
    simulate_magnetic, _logl.
  external_step; [by intros r p v Hc|].
  pose proof (latest_sample_new h a) as Hl.
  external_step.
  { intros r p v [= <- <-]. split; [by left|]. by exists a. }
  keep_latest Hl.
  external_step; [by intros r p v Hc|]. keep_latest Hl.
  external_step; [by intros r p v Hc|]. keep_latest Hl.
  destruct a2 as [models datasets].
  external_step; [by intros r p v Hc|]. keep_latest Hl.
  external_step.
  { intros r p v [= <- <-]. split; [by right|]. by exists a. }
  keep_latest Hl.
  external_step; [by intros r p v Hc|].
  apply in_history_nil.
Qed.

Lemma hist_loop {A S} (P : list (@event Obj) -> @event Obj -> Prop)
    (xs : list A) (body : A -> S -> prog S) s w h :
  (∀ x s w h, in_history P h (log (body x s w))) ->
  in_history P h (log (for_ xs body s w)).
Proof.
  intros Hbody.
  apply (hist_for P (fun _ _ => True) xs body) with (pre := []); [|done..].
  intros. split; [apply Hbody|done].
Qed.

Lemma calc_log_ratios_assigns pt_thick w h :
  in_history assigns_own_sample h (log (calc_log_ratios pt_thick w)).
Proof.
  unfold calc_log_ratios.
  apply hist_bind; [|intros; apply in_history_nil].
  apply hist_loop. intros [i total_time] ratios w0 h0.
  apply hist_bind.
  { destruct (i mod 20 =? 0); [|apply in_history_nil].
    apply hist_external. by intros r p v Hc. }
  intros _ _. apply hist_bind; [|intros; apply in_history_nil].
  apply hist_loop. intros. apply simulate_ratio_assigns.
Qed.

(** X1. Whatever the library does, every parameter assignment that
    [calc_log_ratios] makes, in a run that returns or not, writes 0.01638
    or 0, and the parameter it writes is [pt_mag] of the sample returned by
    the latest [SampleYIG()] call before the assignment. *)
Theorem calc_log_ratios_assigns_own_samples (pt_thick : float) (w : World Lib)
    before ev after p v :
  log (calc_log_ratios pt_thick w) = before ++ ev :: after ->
  ev_call ev = Cset_value p v ->
  (v = pt_moment ∨ v = 0%float) ∧
  ∃ sample, latest_sample before = Some sample ∧ p = pt_mag sample.
Proof.
  intros Hlog Hcall.
  exact (calc_log_ratios_assigns pt_thick w [] before ev after Hlog p v Hcall).
Qed.

(** *** Counting calls *)

(** X2. Whatever the thickness and the library, a run of
    [calc_log_ratios] that returns has built exactly 2000 samples, asked
    for exactly 2000 simulations and evaluated the likelihood exactly 4000
    times. *)
Theorem calc_log_ratios_cost (pt_thick : float) (w : World Lib) ratios :
  res (calc_log_ratios pt_thick w) = Ok ratios ->
  count is_SampleYIG (log (calc_log_ratios pt_thick w)) = 2000 ∧
  count is_simulate (log (calc_log_ratios pt_thick w)) = 2000 ∧
  count is_logl (log (calc_log_ratios pt_thick w)) = 4000.
Proof.
  intros Hres.
  pose proof (out_eta (calc_log_ratios pt_thick w)) as Hrun. rewrite Hres in Hrun.
  apply calc_log_ratios_run in Hrun as (pss & Hlen & Hall & _ & ->).
  split; [|split].
  - by rewrite (count_ratios_log is_SampleYIG 1).
  - by rewrite (count_ratios_log is_simulate 1).
  - by rewrite (count_ratios_log is_logl 2).
Qed.

(** *** Progress lines and the work done *)

Lemma calc_log_ratios_progress pt_thick w :
  in_history times_progress_true [] (log (calc_log_ratios pt_thick w)).
Proof.
  unfold calc_log_ratios.
  apply hist_bind; [|intros; apply in_history_nil].
  apply (hist_for times_progress_true
           (fun pre h => count is_simulate h = 20 * length pre) (enumerate times))
    with (pre := []); [|done..].
  intros pre [i total_time] post ratios w0 h Hall HJ.
  apply enumerate_split in Hall as [Hi Hlt]. cbn [fst] in Hi, Hlt. subst i.
  split.
  - apply hist_bind.
    { destruct (_ =? 0); [|apply in_history_nil].
      apply hist_external. intros r line [= <-]. by exists (length pre). }
    intros _ _. apply hist_bind; [|intros; apply in_history_nil].
    apply (hist_logs _ (fun ev => is_print ev = false)).
    + apply logs_for. intros. apply simulate_ratio_prints_nothing.
    + apply not_printing. intros h0 ev Hev line Hc. by destruct (Hev line).
  - intros ratios' Hres.
    match goal with |- context [log ?o] => pose proof (out_eta o) as Hrun end.
    rewrite Hres in Hrun.
    apply bind_ok in Hrun as (u & w1 & L1 & L2 & Hprint & Hrest & ->).
    apply bind_ok in Hrest as (temp & w2 & L3 & L4 & Hinner & Hret & ->).
    apply ret_ok in Hret as (_ & _ & ->).
    apply inner_loop_run in Hinner as (ps & Hps & _ & ->).
    rewrite !count_app, HJ, (count_passes is_simulate 1), Hps, length_app by done.
    assert (count is_simulate L1 = 0) as ->; [|cbn; lia].
    apply when_ok in Hprint. destruct (_ =? 0); [|by destruct Hprint as [_ ->]].
    by apply print_ok in Hprint as [_ ->].
Qed.

(** X3. Every progress line that [calc_log_ratios] prints, in a run that
    returns or not, is true: it reads ['>>> i/100'] with [i] the number of
    time values already completed, 20 simulations having been asked for
    each of them. *)
Theorem calc_log_ratios_progress_is_true (pt_thick : float) (w : World Lib)
    before ev after line :
  log (calc_log_ratios pt_thick w) = before ++ ev :: after ->
  ev_call ev = Cprint line ->
  ∃ i, i < 100 ∧ line = progress_line i 100 ∧ count is_simulate before = 20 * i.
Proof.
  intros Hlog Hcall.
  destruct (calc_log_ratios_progress pt_thick w before ev after Hlog line Hcall)
    as (i & Hi & -> & Hcount).
  rewrite times_length in *. by exists i.
Qed.

Lemma count_info_events (sample : Obj) yps gs :
  length gs = length yps ->
  count is_info (zip_with (info_event sample) yps gs) = length yps.
Proof.
  revert gs. induction yps as [|yp yps IH]; intros [|g gs] Hlen; try done.
  cbn [zip_with length]. unfold count in *. rewrite filter_cons_True by done.
  cbn [length]. rewrite IH; [done|]. by injection Hlen.
Qed.

Lemma fisher_sweep_progress sample w :
  in_history sweep_progress_true [] (log (fisher_sweep sample w)).
Proof.
  unfold fisher_sweep. cbv zeta.
  apply (hist_for sweep_progress_true
           (fun pre h => count is_info h = length pre * length pt_thick_range)
           (enumerate yig_thick_range))
    with (pre := []); [|done..].
  intros pre [i yig_thick] post [[x0 y0] infos0] w0 h Hall HJ.
  apply enumerate_split in Hall as [Hi Hlt]. cbn [fst] in Hi, Hlt. subst i.
  split.
  - apply hist_bind.
    { destruct (_ =? 0); [|apply in_history_nil].
      apply hist_external. intros r line [= <-]. exists (length pre).
      split; [done|]. split; [|done]. rewrite HJ.
      by rewrite grid_pairs_length, pt_thick_range_length. }
    intros _ _.
    apply (hist_logs _ (fun ev => is_print ev = false)).
    + apply logs_for. intros pt [[x y] infos] _.
      apply logs_bind; [by apply logs_external|]. intros g.
      apply logs_bind; [apply logs_of_option|]. intros. apply logs_ret.
    + apply not_printing. intros h0 ev Hev line Hc. by destruct (Hev line).
  - intros acc' Hres.
    match goal with |- context [log ?o] => pose proof (out_eta o) as Hrun end.
    rewrite Hres in Hrun.
    apply bind_ok in Hrun as (u & w1 & L1 & L2 & Hprint & Hrow & ->).
    apply sweep_row_run in Hrow as (gs & vs & _ & Hlen & _ & ->).
    rewrite !count_app, HJ, count_info_events, length_map, length_app
      by (by rewrite length_map).
    assert (count is_info L1 = 0) as ->; [|cbn; lia].
    apply when_ok in Hprint. destruct (_ =? 0); [|by destruct Hprint as [_ ->]].
    by apply print_ok in Hprint as [_ ->].
Qed.

(** X4. Every progress line that the thickness sweep prints, in a run that
    returns or not, is true: it reads ['>>> a/3000'] where [a] is the
    number of [underlayer_info] calls made so far, a whole number of rows
    of 50, and 3000 is the number of pairs of the two grids. *)
Theorem fisher_sweep_progress_is_true (sample : Obj) (w : World Lib)
    before ev after line :
  log (fisher_sweep sample w) = before ++ ev :: after ->
  ev_call ev = Cprint line ->
  ∃ i, i < 60 ∧ line = progress_line (count is_info before) 3000 ∧
       count is_info before = i * 50.
Proof.
  intros Hlog Hcall.
  destruct (fisher_sweep_progress sample w before ev after Hlog line Hcall)
    as (i & Hi & -> & Hcount).
  rewrite grid_pairs_length, pt_thick_range_length, yig_thick_range_length in *.
  by exists i.
Qed.

(** *** How the thickness sweep ends *)

Section Stops.

Variable fatal : @event Obj -> option exn.

Lemma stopped_ret {A} (a : A) w : stopped_by fatal (ret a w : out A).
Proof. left. split; [by exists a|constructor]. Qed.

Lemma stopped_bind {A B} (m : prog A) (k : A -> prog B) w :
  stopped_by fatal (m w) ->
  (∀ a, stopped_by fatal (k a (final (m w)))) ->
  stopped_by fatal (bind m k w).
Proof.
  intros Hm Hk. unfold bind.
  destruct Hm as [[[a Ha] Hquiet]|(pre & ev & e & Hlog & Hpre & Hev & Hres)].
  - rewrite Ha.
    destruct (Hk a) as [[[b Hb] Hq]|(pre & ev & e & Hlog & Hpre & Hev & Hres)].
    + left. cbn [res log]. split; [by exists b|by apply Forall_app].
    + right. exists (log (m w) ++ pre), ev, e. cbn [res log]. rewrite Hlog.
      split; [by rewrite (assoc_L (++))|]. split; [by apply Forall_app|done].
  - rewrite Hres. right. by exists pre, ev, e.
Qed.

Lemma stopped_for {A S} (xs : list A) (body : A -> S -> prog S) s w :
  (∀ x s w, stopped_by fatal (body x s w)) -> stopped_by fatal (for_ xs body s w).
Proof.
  intros Hbody. revert s w. induction xs as [|x xs IH]; intros s w; cbn [for_].
  - apply stopped_ret.
  - apply stopped_bind; [apply Hbody|]. intros s'. apply IH.
Qed.

Lemma stopped_progress {B} b line (k : unit -> prog B) w :
  fatal (returned (Cprint line) Rnone) = None ->
  (∀ w, stopped_by fatal (k tt w)) ->
  stopped_by fatal (bind (when b (print line)) k w).
Proof.
  intros Hline Hk. apply stopped_bind; [|by intros []].
  destruct b; [|apply stopped_ret].
  left. split; [by exists tt|]. by repeat constructor.
Qed.

(** The two ways out of a run. *)
Lemma stopped_by_cases {A} (o : @out Obj Lib A) :
  stopped_by fatal o ->
  ((∃ a, res o = Ok a) <-> ∀ ev, ev ∈ log o -> fatal ev = None) ∧
  ∀ ev e, ev ∈ log o -> fatal ev = Some e ->
          res o = Raise e ∧ ∃ before, log o = before ++ [ev].
Proof.
  intros [[[a Ha] Hquiet]|(pre & ev & e & Hlog & Hpre & Hev & Hres)].
  - rewrite Forall_forall in Hquiet. split.
    + split; [by intros _|by exists a].
    + intros ev e Hin Hev. rewrite (Hquiet ev Hin) in Hev. done.
  - rewrite Forall_forall in Hpre. split.
    + split.
      * intros [a Ha]. congruence.
      * intros Hnone. rewrite (Hnone ev) in Hev; [done|].
        rewrite Hlog. apply elem_of_app. right. by left.
    + intros ev' e' Hin Hev'. rewrite Hlog in Hin.
      apply elem_of_app in Hin as [Hin|Hin].
      * rewrite (Hpre ev' Hin) in Hev'. done.
      * apply list_elem_of_singleton in Hin as ->.
        split; [congruence|by exists pre].
Qed.

End Stops.

Lemma fisher_sweep_stopped sample w :
  stopped_by sweep_failure (fisher_sweep sample w).
Proof.
  unfold fisher_sweep. cbv zeta.
  apply stopped_for. intros [i yig_thick] acc w0.
  apply stopped_progress; [done|]. intros w1.
  apply stopped_for. intros pt_thick [[x y] infos] w2.
  unfold underlayer_info, bind, external.
  destruct (ext_underlayer_info _ _ _ _ w2) as [[g|e] w3]; cbn [res final log].
  - destruct (Np.item00 g) as [v|] eqn:Hg; cbn [of_option ret raise res final log].
    + left. split; [by eexists|]. repeat constructor.
      unfold sweep_failure. cbn. by rewrite Hg.
    + right. eexists [], _, IndexError. split; [done|]. split; [done|].
      split; [|done]. unfold sweep_failure. cbn. by rewrite Hg.
  - right. eexists [], _, e. by repeat split.
Qed.

(** X5. The thickness sweep returns exactly when no [underlayer_info]
    call raised and every matrix returned had an entry [0, 0].  A call
    that raises, or that returns a matrix without that entry, is the last
    call made: the sweep ends there with that exception, respectively
    with [IndexError], and [x], [y], [infos] are lost. *)
Theorem fisher_sweep_stops (sample : Obj) (w : World Lib) :
  ((∃ xyi, res (fisher_sweep sample w) = Ok xyi) <->
   ∀ ev, ev ∈ log (fisher_sweep sample w) -> sweep_failure ev = None) ∧
  ∀ ev e, ev ∈ log (fisher_sweep sample w) -> sweep_failure ev = Some e ->
          res (fisher_sweep sample w) = Raise e ∧
          ∃ before, log (fisher_sweep sample w) = before ++ [ev].
Proof. apply stopped_by_cases, fisher_sweep_stopped. Qed.

(** *** What the thickness sweep leaves alone *)

Lemma keeps_for {X A S} (obs : World Lib -> X) (xs : list A)
    (body : A -> S -> prog S) s :
  (∀ x s, keeps obs (body x s)) -> keeps obs (for_ xs body s).
Proof.
  intros Hbody. revert s. induction xs as [|x xs IH]; intros s; cbn [for_].
  - done.
  - by apply keeps_bind.
Qed.

Lemma keeps_progress {X B} (obs : World Lib -> X) b line (k : unit -> prog B) :
  keeps obs (k tt) -> keeps obs (bind (when b (print line)) k).
Proof.
  intros Hk. apply keeps_bind; [|by intros []].
  destruct b; [|done]. by apply keeps_external.
Qed.

(** X6. In any run, the thickness sweep makes no call but its progress
    lines and [underlayer_info] on the sample it was given, with the plan
    of the cell and thicknesses taken from the two grids; it builds no
    sample and assigns no parameter.  Whatever [underlayer_info] on that
    sample leaves as it was is, after the sweep, as it was. *)
Theorem fisher_sweep_only_asks (sample : Obj) (w : World Lib) :
  Forall (sweep_call sample) (log (fisher_sweep sample w)) ∧
  ∀ X (obs : World Lib -> X),
    (∀ angle_times yig_thick pt_thick w,
       obs (ext_underlayer_info sample angle_times yig_thick pt_thick w).2 = obs w) ->
    obs (final (fisher_sweep sample w)) = obs w.
Proof.
  split.
  - revert w. change (logs (sweep_call sample) (fisher_sweep sample)).
    unfold fisher_sweep. cbv zeta.
    apply logs_for. intros [i yig_thick] acc Hyig%enumerate_elem.
    apply logs_bind.
    { apply logs_when, logs_external. intros r. by left. }
    intros _. apply logs_for. intros pt_thick [[x y] infos] Hpt.
    apply logs_bind.
    { apply logs_external. intros r. right. by exists yig_thick, pt_thick. }
    intros g. apply logs_bind; [apply logs_of_option|]. intros. apply logs_ret.
  - intros X obs Hobs. revert w. change (keeps obs (fisher_sweep sample)).
    unfold fisher_sweep. cbv zeta.
    apply keeps_for. intros [i yig_thick] acc.
    apply keeps_progress.
    apply keeps_for. intros pt_thick [[x y] infos].
    apply keeps_bind; [by apply keeps_external|]. intros g.
    apply keeps_bind; [apply keeps_of_option|]. by intros.
Qed.

(** *** [plot_reflectivity] on the columns of its data *)

Lemma bind_quiet {A B} (m : prog A) (k : A -> prog B) w a :
  m w = Out (Ok a) w [] -> bind m k w = k a w.
Proof. intros Hm. unfold bind. rewrite Hm. cbn. by destruct (k a w). Qed.

Lemma bind_raised {A B} (m : prog A) (k : A -> prog B) w e w' L :
  m w = Out (Raise e) w' L -> bind m k w = Out (Raise e) w' L.
Proof. intros Hm. unfold bind. by rewrite Hm. Qed.

Lemma column_view_in data j w a :
  arrays w !! data = Some a -> j < Np.ncols a ->
  (column_view data j : prog _) w = Out (Ok (data, j)) w [].
Proof.
  intros Ha Hj. unfold column_view. rewrite Ha.
  by apply Nat.ltb_lt in Hj as ->.
Qed.

Lemma column_view_out data j w a :
  arrays w !! data = Some a -> Np.ncols a <= j ->
  (column_view data j : prog _) w = Out (Raise IndexError) w [].
Proof.
  intros Ha Hj. unfold column_view. rewrite Ha.
  by apply Nat.ltb_ge in Hj as ->.
Qed.

(** X7. On a data set with fewer than four columns [plot_reflectivity]
    raises [IndexError] at the extraction of the columns, although
    [counts], the fourth, is never used: no model curve has been asked for,
    no figure opened and nothing changed. *)
Theorem plot_reflectivity_short_data (model : Obj) (data : nat)
    (w : World Lib) a :
  arrays w !! data = Some a -> Np.ncols a < 4 ->
  plot_reflectivity model data w = Out (Raise IndexError) w [].
Proof.
  intros Ha Hcols. unfold plot_reflectivity.
  destruct (decide (Np.ncols a <= 0)) as [H0|H0].
  { by apply bind_raised, (column_view_out _ _ _ a). }
  rewrite (bind_quiet _ _ w (data, 0)) by (apply (column_view_in _ _ _ a); [done|lia]).
  destruct (decide (Np.ncols a <= 1)) as [H1|H1].
  { by apply bind_raised, (column_view_out _ _ _ a). }
  rewrite (bind_quiet _ _ w (data, 1)) by (apply (column_view_in _ _ _ a); [done|lia]).
  destruct (decide (Np.ncols a <= 2)) as [H2|H2].
  { by apply bind_raised, (column_view_out _ _ _ a). }
  rewrite (bind_quiet _ _ w (data, 2)) by (apply (column_view_in _ _ _ a); [done|lia]).
  apply bind_raised, (column_view_out _ _ _ a); [done|lia].
Qed.

Lemma logs_deref P v : logs P (deref v : prog _).
Proof. intros w. unfold deref. apply logs_of_option. Qed.

(** X8. On a data set with four columns or more, the first call
    [plot_reflectivity] makes is [reflectivity(q, model)], with [q] column
    0 of the data as it is at entry; every later call goes to matplotlib.
    When [reflectivity] raises, the function ends there with that
    exception: no figure is opened. *)
Theorem plot_reflectivity_model_first (model : Obj) (data : nat)
    (w : World Lib) a :
  arrays w !! data = Some a -> 4 <= Np.ncols a ->
  ∃ q outcome rest,
    Np.column 0 a = Some q ∧
    log (plot_reflectivity model data w) =
      Event (Creflectivity q model) outcome :: rest ∧
    Forall (fun ev => is_drawing ev = true) rest ∧
    ∀ e, outcome = Raise e ->
         rest = [] ∧ res (plot_reflectivity model data w) = Raise e.
Proof.
  intros Ha Hcols. unfold plot_reflectivity.
  rewrite (bind_quiet _ _ w (data, 0)) by (apply (column_view_in _ _ _ a); [done|lia]).
  rewrite (bind_quiet _ _ w (data, 1)) by (apply (column_view_in _ _ _ a); [done|lia]).
  rewrite (bind_quiet _ _ w (data, 2)) by (apply (column_view_in _ _ _ a); [done|lia]).
  rewrite (bind_quiet _ _ w (data, 3)) by (apply (column_view_in _ _ _ a); [done|lia]).
  assert (∃ q, Np.column 0 a = Some q) as [q Hq].
  { unfold Np.column. assert ((0 <? Np.ncols a) = true) as ->; [|by eexists].
    apply Nat.ltb_lt. lia. }
  rewrite (bind_quiet _ _ w q).
  2:{ unfold deref. cbn [fst snd]. rewrite Ha. cbn. by rewrite Hq. }
  exists q.
  match goal with |- context [bind (reflectivity q model) ?k w] => set (rest := k) end.
  assert (∀ r_model, logs (fun ev => is_drawing ev = true) (rest r_model)) as Hrest.
  { intros r_model. unfold rest, plt_figure, add_subplot, axes, plt_show.
    repeat first
      [ apply logs_bind; [|intros ?]
      | apply logs_deref
      | by apply logs_external ]. }
  unfold bind, reflectivity, external.
  destruct (ext_reflectivity q model w) as [[r_model|e] w1]; cbn [res final log].
  - exists (Ok (Rarray r_model)), (log (rest r_model w1)).
    split; [done|]. split; [done|]. split; [apply Hrest|done].
  - exists (Raise e), []. split; [done|]. split; [done|]. split; [done|].
    by intros e' [= ->].
Qed.

(** *** The order of the log-ratio figure *)

Lemma hist_external_bind {A B} (P : list (@event Obj) -> @event Obj -> Prop) h c
    (inj : A -> retval) (f : World Lib -> result A * World Lib)
    (k : A -> prog B) w :
  (∀ r, P h (Event c r)) ->
  (∀ a w', in_history P (h ++ [returned c (inj a)]) (log (k a w'))) ->
  in_history P h (log (bind (external c inj f) k w)).
Proof.
  intros Hc Hk. apply hist_bind; [by apply hist_external|].
  intros a Hres. rewrite (external_log_ok _ _ _ _ _ Hres). apply Hk.
Qed.

Lemma calc_log_ratios_draws_nothing pt_thick :
  logs (fun ev => is_drawing ev = false) (calc_log_ratios pt_thick).
Proof.
  unfold calc_log_ratios. apply logs_bind; [|intros; apply logs_ret].
  apply logs_for. intros [i total_time] ratios _.
  apply logs_bind; [by apply logs_when, logs_external|].
  intros _. apply logs_bind; [|intros; apply logs_ret].
  apply logs_for. intros _ temp _. unfold simulate_ratio.
  repeat first
    [ apply logs_ret
    | apply logs_bind; [|intros ?]
    | match goal with |- logs _ (let (_, _) := ?a in _) => destruct a end
    | by apply logs_external ].
Qed.

Lemma hist_calc_bind {B} h pt_thick (k : list float -> prog B) w :
  (∀ ratios w' L, count is_simulate L = 2000 -> count is_plot L = 0 ->
     in_history figure_order (h ++ L) (log (k ratios w'))) ->
  in_history figure_order h (log (bind (calc_log_ratios pt_thick) k w)).
Proof.
  intros Hk. apply hist_bind.
  - apply (hist_logs _ (fun ev => is_drawing ev = false));
      [apply calc_log_ratios_draws_nothing|].
    intros h' [c r] Hev. unfold figure_order. by destruct c.
  - intros ratios Hres. apply Hk.
    + pose proof (out_eta (calc_log_ratios pt_thick w)) as Hrun.
      rewrite Hres in Hrun.
      apply calc_log_ratios_run in Hrun as (pss & Hlen & Hall & _ & ->).
      by rewrite (count_ratios_log is_simulate 1).
    + apply count_none, calc_log_ratios_plots_nothing.
Qed.

(** X9. The cell of the log-ratio figure, in any run: the figure is
    opened before anything else and its axes before any simulation; each
    of the two curves is plotted only once its own 2000 simulations are all
    done (2000 before the first curve, 4000 before the second); the axis
    labels and the legend are set after both curves; [plt.show] is never
    called. *)
Theorem log_ratio_figure_order (w : World Lib) before ev after :
  log (log_ratio_figure w) = before ++ ev :: after ->
  figure_order before ev.
Proof.
  intros Hlog.
  enough (in_history figure_order [] (log (log_ratio_figure w))) as Hall
    by apply (Hall before ev after Hlog).
  clear. unfold log_ratio_figure, plt_figure, add_subplot, axes.
  apply hist_external_bind; [done|]. intros fig w1.
  apply hist_external_bind; [done|]. intros ax w2.
  apply hist_calc_bind. intros y26 w3 L26 Hsim26 Hplot26.
  apply hist_external_bind.
  { intros r. unfold figure_order. cbn [ev_call].
    rewrite !count_app, !count_cons, Hsim26, Hplot26. cbn. lia. }
  intros _ w4.
  apply hist_calc_bind. intros y80 w5 L80 Hsim80 Hplot80.
  apply hist_external_bind.
  { intros r. unfold figure_order. cbn [ev_call].
    rewrite !count_app, !count_cons, Hsim26, Hplot26, Hsim80, Hplot80. cbn. lia. }
  intros _ w6.
  assert (∀ h', h' = [] ++ [returned (Cfigure (6, 7)%float) (Robj fig)]
                     ++ [returned (Cadd_subplot fig 111) (Robj ax)] ++ L26
                     ++ [returned (Caxes ax (Aplot (Np.scale 1.5 times) y26
                           (label "26Å Pt Thickness"))) Rnone] ++ L80
                     ++ [returned (Caxes ax (Aplot (Np.scale 1.5 times) y80
                           (label "80Å Pt Thickness"))) Rnone] ->
               count is_simulate h' = 4000 ∧ count is_plot h' = 2) as Hdone.
  { intros h' ->.
    rewrite !count_app, !count_cons, Hsim26, Hplot26, Hsim80, Hplot80. cbn. lia. }
  rewrite <- !(assoc_L (++)).
  repeat (apply hist_external_bind;
    [ intros r; unfold figure_order; cbn [ev_call];
      rewrite !count_app, !count_cons; cbn [is_simulate is_plot ev_call returned];
      destruct (Hdone _ eq_refl) as [Hs Hp];
      rewrite !count_app, !count_cons in Hs, Hp;
      cbn [is_simulate is_plot ev_call returned] in Hs, Hp; lia
    | intros _ ?w; rewrite <- !(assoc_L (++)) ]).
  apply in_history_nil.
Qed.

End More.

(** ** The statements at work on the small library *)

#[local] Existing Instance Toy.library.

(** The toy library satisfies the reading discipline asked of [_logl]. *)
Lemma toy_logl_reads : logl_reads Toy.footprint.
Proof.
  split; [done|]. intros models w w' _ _ Hp. simpl. unfold Toy.logl.
  rewrite (Hp models); [done|]. unfold Toy.footprint. set_solver.
Qed.

Lemma toy_cooperative : cooperative.
Proof. repeat split; intros; simpl; eauto. Qed.

Lemma calc_log_ratios_medians_witness :
  let o := calc_log_ratios 26 Toy.world_0 in
  ∃ ratios,
    res o = Ok ratios ∧
    length ratios = length times ∧
    ∃ pss : list (list pass),
      log o = ratios_log 26 pss ∧
      ∀ i total_time, times !! i = Some total_time ->
        ∃ ps, pss !! i = Some ps ∧ length ps = 20 ∧
              ratios !! i = Some (Toy.median (map pass_ratio ps)).
Proof.
  intros o.
  destruct (proj1 (calc_log_ratios_medians 26 Toy.world_0) toy_cooperative)
    as (ratios & Hres).
  exists ratios. split; [exact Hres|].
  exact (proj2 (proj2 (calc_log_ratios_medians 26 Toy.world_0) ratios Hres)).
Defined.

Lemma simulate_ratio_same_models_witness :
  let o := simulate_ratio 26 40 [] Toy.world_0 in
  o = Out (Ok (Toy.returned_value [] o)) (final o) (log o) ∧
  ∃ p : pass,
    log o = pass_log 26 40 p ∧
    Toy.returned_value [] o = [(logl_1 p - logl_2 p)%float] ∧
    pt_mag (pass_sample p) ∈ Toy.footprint (pass_models p).
Proof.
  intros o.
  assert (o = Out (Ok (Toy.returned_value [] o)) (final o) (log o)) as Hrun
    by (vm_compute; reflexivity).
  split; [exact Hrun|].
  destruct (simulate_ratio_same_models 26 40 [] Toy.world_0 _ _ _ Hrun)
    as (p & HL & _ & Htemp & Halias).
  exists p. split; [exact HL|]. split; [exact Htemp|].
  apply Halias; [exact toy_logl_reads|].
  destruct p as [sample structure models datasets l1 l2].
  vm_compute in HL. cbn [logl_1 logl_2]. simplify_eq. float_neq.
Defined.

(** C3 as the specification words it fails at the first of the [times]:
    the three per-angle times for a total of 40 add up, in Python, to the
    float just below 40. *)
Lemma split_times_sum_inexact :
  times !! 0 = Some 40%float ∧
  py_sum (map snd (split_times 40)) = next_down 40 ∧
  py_sum (map snd (split_times 40)) ≠ 40%float.
Proof.
  split; [apply times_first|]. split; [vm_compute; reflexivity|]. float_neq.
Qed.

Lemma split_times_plan_witness :
  let o := calc_log_ratios (E:=Toy.failing_logl) 26 Toy.world_0 in
  let ev := returned (Csimulate_magnetic 30 (split_times 80) 1 bkg_magnetic 2
                        true false false true) (Rpair 30 30) in
  let o' := calc_log_ratios 26 Toy.world_0 in
  (log o !! 144 = Some ev ∧
   count is_simulate (take 144 (log o)) = 20 ∧
   ∃ i j total_time,
     count is_simulate (take 144 (log o)) = 20 * i + j ∧ j < 20 ∧
     times !! i = Some total_time ∧
     split_times 80 =
       [ (0.5, 100%Z, 1 / 7 * total_time);
         (1.0, 100%Z, 2 / 7 * total_time);
         (2.0, 100%Z, 4 / 7 * total_time) ]%float ∧
     map fst (split_times 80) = map fst angle_splits ∧
     map snd (split_times 80) = map (fun a => (a.2 * total_time)%float) angle_splits ∧
     py_sum (map snd angle_splits) = 1%float ∧
     (py_sum (map snd (split_times 80)) = total_time ∨
      py_sum (map snd (split_times 80)) = next_down total_time)) ∧
  (times !! 1 = Some 80%float ∧
   ∃ ev' structure scale bkg dq pp pm mp mm,
     filter (fun ev => is_simulate ev = true) (log o') !! (20 * 1 + 0) = Some ev' ∧
     ev_call ev' =
       Csimulate_magnetic structure
         [ (0.5, 100%Z, 1 / 7 * 80); (1.0, 100%Z, 2 / 7 * 80);
           (2.0, 100%Z, 4 / 7 * 80) ]%float
         scale bkg dq pp pm mp mm).
Proof.
  intros o ev o'. split.
  - assert (log o !! 144 = Some ev) as Hev by (vm_compute; reflexivity).
    split; [exact Hev|]. split; [vm_compute; reflexivity|].
    exact (proj1 (split_times_plan (E:=Toy.failing_logl) 26 Toy.world_0)
             (take 144 (log o)) ev (drop 145 (log o)) _ _ _ _ _ _ _ _ _
             (eq_sym (take_drop_middle _ _ _ Hev)) eq_refl).
  - assert (times !! 1 = Some 80%float) as Ht by (vm_compute; reflexivity).
    split; [exact Ht|].
    destruct (calc_log_ratios_returns 26 toy_cooperative Toy.world_0)
      as (ratios & Hres & _).
    exact (proj2 (split_times_plan 26 Toy.world_0) ratios Hres 1 80%float 0 Ht
             (Nat.lt_0_succ 19)).
Defined.

Lemma fisher_sweep_row_major_witness :
  let o := fisher_sweep 3 Toy.world_0 in
  ∃ x y infos,
    res o = Ok (x, y, infos) ∧
    x = map fst grid_pairs ∧
    y = map snd grid_pairs ∧
    (∃ gs : list (list (list float)),
       calls (log o)
         = zip_with (fun yp g => returned
                       (Cunderlayer_info 3 angle_times_fisher yp.1 yp.2) (Rmatrix g))
                    grid_pairs gs ∧
       length gs = length grid_pairs ∧
       Forall2 (fun g v => Np.item00 g = Some v) gs infos) ∧
    length infos = length yig_thick_range * length pt_thick_range.
Proof.
  intros o.
  destruct (proj1 (fisher_sweep_row_major 3 Toy.world_0) toy_cooperative)
    as ([[x y] infos] & Hres).
  exists x, y, infos. split; [exact Hres|].
  destruct (proj2 (fisher_sweep_row_major 3 Toy.world_0) x y infos Hres)
    as (_ & _ & _ & Hx & Hy & Hcalls & _ & _ & Hinfos & _).
  exact (conj Hx (conj Hy (conj Hcalls Hinfos))).
Defined.


(** The plotting calls of the toy library change neither parameters nor
    arrays. *)
Lemma toy_untouched :
  untouched_by_plotting (fun w : World nat => (params w, arrays w)).
Proof. by repeat split. Qed.

Lemma toy_untouched_data data :
  untouched_by_plotting (fun w : World nat => arrays w !! data).
Proof. by repeat split. Qed.

Lemma plot_reflectivity_draws_witness :
  let o := plot_reflectivity 3 7 Toy.world_0 in
  arrays Toy.world_0 !! 7 = Some Toy.data_0 ∧
  res o = Ok tt ∧
  ∃ q r dr counts r_model fig ax,
    Np.column 0 Toy.data_0 = Some q ∧ Np.column 1 Toy.data_0 = Some r ∧
    Np.column 2 Toy.data_0 = Some dr ∧ Np.column 3 Toy.data_0 = Some counts ∧
    log o =
      [ returned (Creflectivity q 3) (Rarray r_model);
        returned (Cfigure (9, 7)%float) (Robj fig);
        returned (Cadd_subplot fig 111) (Robj ax);
        returned (Caxes ax (Aplot q r_model
          [("color", VStr "red"); ("zorder", VInt 20); ("label", VStr "Model")]))
          Rnone;
        returned (Caxes ax (Aerrorbar q r dr
          [("color", VStr "black"); ("marker", VStr "o"); ("ms", VInt 3);
           ("lw", VInt 0); ("elinewidth", VInt 1); ("capsize", VFloat 1.5);
           ("label", VStr "Simulated")])) Rnone;
        returned (Caxes ax (Aset_xlabel "$\mathregular{Q\ (Å^{-1})}$" bold11)) Rnone;
        returned (Caxes ax (Aset_ylabel "Reflectivity (arb.)" bold11)) Rnone;
        returned (Caxes ax (Aset_yscale "log")) Rnone;
        returned (Caxes ax (Aset_xlim 0 xlim_hi)) Rnone;
        returned (Caxes ax Alegend) Rnone;
        returned Cshow Rnone ] ∧
    arrays (final o) !! 7 = Some Toy.data_0 ∧
    (params (final o), arrays (final o)) = (params Toy.world_0, arrays Toy.world_0).
Proof.
  intros o.
  assert (arrays Toy.world_0 !! 7 = Some Toy.data_0) as Ha by (vm_compute; reflexivity).
  assert (res o = Ok tt) as Hres by (vm_compute; reflexivity).
  split; [exact Ha|]. split; [exact Hres|].
  exact (plot_reflectivity_draws (fun w => (params w, arrays w)) 3 7 Toy.world_0
           Toy.data_0 Ha (toy_untouched_data 7) toy_untouched Hres).
Defined.

Lemma exceptions_propagate_witness :
  let failure := PyExn "ValueError" "no data" in
  let o := calc_log_ratios (E:=Toy.failing_logl) 26 Toy.world_0 in
  let o' := plot_reflectivity (E:=Toy.failing_logl) 3 7 Toy.world_0 in
  (last (log o) = Some (Event (Clogl 35) (Raise failure)) ∧
   res o = Raise failure ∧
   ∃ before, log o = before ++ [Event (Clogl 35) (Raise failure)]) ∧
  (last (log o') = Some (Event (Creflectivity [0.125; 0.25]%float 3) (Raise failure)) ∧
   res o' = Raise failure).
Proof.
  intros failure o o'. split.
  - assert (last (log o) = Some (Event (Clogl 35) (Raise failure))) as Hlast
      by (vm_compute; reflexivity).
    split; [exact Hlast|].
    destruct (proj1 (exceptions_propagate (E:=Toy.failing_logl)) 26%float Toy.world_0
                (Event (Clogl 35) (Raise failure)) failure)
      as (Hres & _ & Hbefore).
    + apply last_Some_elem_of. exact Hlast.
    + reflexivity.
    + exact (conj Hres Hbefore).
  - assert (last (log o')
            = Some (Event (Creflectivity [0.125; 0.25]%float 3) (Raise failure)))
      as Hlast by (vm_compute; reflexivity).
    split; [exact Hlast|].
    refine (proj1 (proj2 (exceptions_propagate (E:=Toy.failing_logl)) 3 7 Toy.world_0
                   (Event (Creflectivity [0.125; 0.25]%float 3) (Raise failure))
                   failure _ eq_refl)).
    apply last_Some_elem_of. exact Hlast.
Defined.


Lemma progress_lines_witness :
  let o := calc_log_ratios 26 Toy.world_0 in
  ∃ works : list (list event),
    log o = concat (imap (fun i work =>
        (if i mod 20 =? 0
         then [returned (Cprint (progress_line i (length times))) Rnone]
         else []) ++ work) works) ∧
    length works = length times ∧
    Forall (Forall (fun ev => is_print ev = false)) works ∧
    ∀ i work, works !! i = Some work ->
      ∃ total_time,
        times !! i = Some total_time ∧
        Forall (plan_of_time total_time) work ∧
        ∃ ps, length ps = 20 ∧ work = concat (map (pass_log 26 total_time) ps).
Proof.
  intros o.
  destruct (proj1 progress_lines 26%float Toy.world_0)
    as (works & Hlog & _ & Hlen & Hquiet & Hworks).
  destruct (calc_log_ratios_returns 26 toy_cooperative Toy.world_0)
    as (ratios & Hres & _).
  exists works. split; [exact Hlog|]. split; [exact (Hlen ratios Hres)|].
  split; [exact Hquiet|].
  intros i work Hwork.
  destruct (Hworks i work Hwork) as (total_time & Ht & Hplans & Hdone).
  exists total_time. split; [exact Ht|]. split; [exact Hplans|].
  apply Hdone. right. exists ratios. exact Hres.
Defined.

(** *** The further statements *)

Lemma calc_log_ratios_assigns_own_samples_witness :
  let o := calc_log_ratios (E:=Toy.failing_logl) 26 Toy.world_0 in
  let ev := returned (Cset_value 11 pt_moment) Rnone in
  log o !! 1 = Some (returned CSampleYIG (Robj 10)) ∧
  log o !! 8 = Some (returned CSampleYIG (Robj 11)) ∧
  log o !! 9 = Some ev ∧
  (pt_moment = pt_moment ∨ pt_moment = 0%float) ∧
  ∃ sample, latest_sample (take 9 (log o)) = Some sample ∧ 11 = sample.
Proof.
  intros o ev.
  assert (log o !! 9 = Some ev) as Hev by (vm_compute; reflexivity).
  split; [vm_compute; reflexivity|]. split; [vm_compute; reflexivity|].
  split; [exact Hev|].
  exact (calc_log_ratios_assigns_own_samples (E:=Toy.failing_logl) 26 Toy.world_0
           (take 9 (log o)) ev (drop 10 (log o)) 11 pt_moment
           (eq_sym (take_drop_middle _ _ _ Hev)) eq_refl).
Defined.

Lemma calc_log_ratios_cost_witness :
  let o := calc_log_ratios 26 Toy.world_0 in
  ∃ ratios,
    res o = Ok ratios ∧
    count is_SampleYIG (log o) = 2000 ∧
    count is_simulate (log o) = 2000 ∧
    count is_logl (log o) = 4000.
Proof.
  intros o.
  destruct (calc_log_ratios_returns 26 toy_cooperative Toy.world_0)
    as (ratios & Hres & _).
  exists ratios. split; [exact Hres|].
  exact (calc_log_ratios_cost 26 Toy.world_0 ratios Hres).
Defined.

Lemma calc_log_ratios_progress_is_true_witness :
  let o := calc_log_ratios (E:=Toy.failing_logl) 26 Toy.world_late in
  let ev := returned (Cprint ">>> 0/100") Rnone in
  take 1 (log o) = [ev] ∧
  ∃ i, i < 100 ∧ ">>> 0/100"%string = progress_line i 100 ∧
       count is_simulate ([] : list (@event nat)) = 20 * i.
Proof.
  intros o ev.
  assert (take 1 (log o) = [ev]) as Htake by (vm_compute; reflexivity).
  split; [exact Htake|].
  refine (calc_log_ratios_progress_is_true (E:=Toy.failing_logl) 26 Toy.world_late
            [] ev (drop 1 (log o)) ">>> 0/100" _ eq_refl).
  rewrite <- (take_drop 1 (log o)) at 1. by rewrite Htake.
Defined.

Lemma fisher_sweep_progress_is_true_witness :
  let o := fisher_sweep (E:=Toy.failing_logl) 3 Toy.world_0 in
  let ev := returned (Cprint ">>> 0/3000") Rnone in
  take 1 (log o) = [ev] ∧
  ∃ i, i < 60 ∧
       ">>> 0/3000"%string = progress_line (count is_info ([] : list (@event nat))) 3000 ∧
       count is_info ([] : list (@event nat)) = i * 50.
Proof.
  intros o ev.
  assert (take 1 (log o) = [ev]) as Htake by (vm_compute; reflexivity).
  split; [exact Htake|].
  refine (fisher_sweep_progress_is_true (E:=Toy.failing_logl) 3 Toy.world_0
            [] ev (drop 1 (log o)) ">>> 0/3000" _ eq_refl).
  rewrite <- (take_drop 1 (log o)) at 1. by rewrite Htake.
Defined.

Lemma fisher_sweep_stops_witness :
  let o := fisher_sweep (E:=Toy.failing_logl) 3 Toy.world_0 in
  let ev := returned (Cunderlayer_info 3 angle_times_fisher 400 21.5) (Rmatrix []) in
  last (log o) = Some ev ∧
  sweep_failure ev = Some IndexError ∧
  res o = Raise IndexError ∧
  ∃ before, log o = before ++ [ev].
Proof.
  intros o ev.
  assert (last (log o) = Some ev) as Hlast by (vm_compute; reflexivity).
  split; [exact Hlast|]. split; [reflexivity|].
  exact (proj2 (fisher_sweep_stops (E:=Toy.failing_logl) 3 Toy.world_0) ev IndexError
           (last_Some_elem_of _ _ Hlast) eq_refl).
Defined.

Lemma fisher_sweep_only_asks_witness :
  let o := fisher_sweep 3 Toy.world_0 in
  Forall (sweep_call 3) (log o) ∧
  (params (final o), arrays (final o)) = (params Toy.world_0, arrays Toy.world_0).
Proof.
  intros o.
  destruct (fisher_sweep_only_asks 3 Toy.world_0) as [Hcalls Hkeeps].
  split; [exact Hcalls|].
  exact (Hkeeps _ (fun w => (params w, arrays w)) (fun _ _ _ _ => eq_refl)).
Defined.

Lemma plot_reflectivity_short_data_witness :
  arrays Toy.world_short !! 7 = Some Toy.data_short ∧
  Np.ncols Toy.data_short = 3 ∧
  plot_reflectivity 3 7 Toy.world_short = Out (Raise IndexError) Toy.world_short [].
Proof.
  assert (arrays Toy.world_short !! 7 = Some Toy.data_short) as Ha
    by (vm_compute; reflexivity).
  split; [exact Ha|]. split; [reflexivity|].
  apply (plot_reflectivity_short_data 3 7 Toy.world_short Toy.data_short Ha).
  cbn. lia.
Defined.

Lemma plot_reflectivity_model_first_witness :
  let failure := PyExn "ValueError" "no data" in
  let o := plot_reflectivity (E:=Toy.failing_logl) 3 7 Toy.world_0 in
  arrays Toy.world_0 !! 7 = Some Toy.data_0 ∧
  log o = [Event (Creflectivity [0.125; 0.25]%float 3) (Raise failure)] ∧
  ∃ q outcome rest,
    Np.column 0 Toy.data_0 = Some q ∧
    log o = Event (Creflectivity q 3) outcome :: rest ∧
    Forall (fun ev => is_drawing ev = true) rest ∧
    ∀ e, outcome = Raise e -> rest = [] ∧ res o = Raise e.
Proof.
  intros failure o.
  assert (arrays Toy.world_0 !! 7 = Some Toy.data_0) as Ha by (vm_compute; reflexivity).
  split; [exact Ha|]. split; [vm_compute; reflexivity|].
  apply (plot_reflectivity_model_first (E:=Toy.failing_logl) 3 7 Toy.world_0
           Toy.data_0 Ha).
  cbn. lia.
Defined.

Lemma log_ratio_figure_order_witness :
  let o := log_ratio_figure Toy.world_0 in
  ∃ before ev after,
    log o = before ++ ev :: after ∧
    is_plot ev = true ∧
    length after = 3 ∧
    count is_simulate before = 2000 * S (count is_plot before).
Proof.
  intros o.
  destruct (log_ratio_figure_returns toy_cooperative Toy.world_0) as (fig & Hres & _).
  pose proof (out_eta (log_ratio_figure Toy.world_0)) as Hrun. rewrite Hres in Hrun.
  destruct (log_ratio_figure_run _ _ _ _ Hrun)
    as (ax & pss26 & pss80 & _ & _ & _ & _ & _ & HL).
  pose (before :=
    [ returned (Cfigure (6, 7)%float) (Robj fig);
      returned (Cadd_subplot fig 111) (Robj ax) ] ++
    ratios_log 26 pss26 ++
    [ returned (Caxes ax (Aplot (Np.scale 1.5 times)
                 (map (fun ps => np_median (map pass_ratio ps)) pss26)
                 (label "26Å Pt Thickness"))) Rnone ] ++
    ratios_log 80 pss80).
  pose (ev := returned (Caxes ax (Aplot (Np.scale 1.5 times)
                 (map (fun ps => np_median (map pass_ratio ps)) pss80)
                 (label "80Å Pt Thickness"))) Rnone).
  pose (after :=
    [ returned (Caxes ax (Aset_xlabel "Counting Time (min.)" bold11)) Rnone;
      returned (Caxes ax (Aset_ylabel "Log Ratio of Likelihoods" bold11)) Rnone;
      returned (Caxes ax Alegend) Rnone ]).
  assert (log o = before ++ ev :: after) as Hlog.
  { unfold o, before. rewrite HL. by rewrite <- !(assoc_L (++)). }
  exists before, ev, after. split; [exact Hlog|]. split; [reflexivity|].
  split; [reflexivity|].
  exact (log_ratio_figure_order Toy.world_0 before ev after Hlog).
Defined.
